(** * SBC requirements solver (sbc_solver.js): a shallow embedding

    The class [SBCSolver] is embedded function by function.  Modelling
    conventions, used throughout:

    - JavaScript numbers that the solver receives or produces (squad size,
      chemistry, rating, budget, cost) are integers, written [Z].  The
      intermediate quotients of [estimatePlayerCost], [calculateSquadRating]
      and [calculateRequiredRating] are exact rationals ([Q]); [Math.round]
      and [Math.ceil] bring them back to [Z].  [NaN], the infinities and
      fractional inputs have no counterpart: a computation that would
      produce a non-finite number returns [None].
    - An object literal inherits the members of [Object.prototype]
      ([Js.prototype_names]).  [commonSBCs] is read with them
      ([inherited_member]).  [rarityValues], [positionMultipliers] and the
      counters [leagueCounts] and [nationCounts] are finite maps of their
      own properties: they agree with the code on every key that is not
      such a member, where the code computes with numbers; on a member the
      code leaves the numbers ([NaN] cost, string counts), and the
      statements that depend on the value of a cost or of a count exclude
      these keys by a hypothesis ([Js.inherited_name], [plain_names]).
    - [Object.keys] of a counter lists the keys that are array indices
      first, in ascending order, then the others in insertion order
      ([own_keys]).
    - The elements of a squad array are pairwise distinct objects (each one
      is a fresh literal of [findOptimalPlayer]), so the reference test
      [p !== player] inside [squad.forEach((player, index) => ...)] is the
      test that the position of [p] differs from [index].
    - [console.log] and [console.error] have no effect on any result and are
      left out. *)

From Stdlib Require Import ZArith QArith Qround Qminmax Lia.
From stdpp Require Import base option list strings gmap pretty sorting.

Local Open Scope Z_scope.

(** ** JavaScript primitives *)

Module Js.

(** [x || d] for a possibly absent number: [undefined] and [0] are falsy. *)
Definition or_num (x : option Z) (d : Z) : Z :=
  match x with
  | Some v => if v =? 0 then d else v
  | None => d
  end.

(** [x || null] for a possibly absent number; [null] is [None]. *)
Definition or_null (x : option Z) : option Z :=
  match x with
  | Some v => if v =? 0 then None else Some v
  | None => None
  end.

(** [x || d] where [x] is an array or an object when present: both are
    truthy, even when empty. *)
Definition or_obj {A : Type} (x : option A) (d : A) : A :=
  match x with
  | Some v => v
  | None => d
  end.

(** [x || d] for a possibly absent string: the empty string is falsy. *)
Definition or_str (x : option string) (d : string) : string :=
  match x with
  | Some v => if decide (v = "") then d else v
  | None => d
  end.

(** [Math.round]: the nearest integer, ties towards plus infinity. *)
Definition Math_round (x : Q) : Z := Qfloor (x + (1 # 2)).

(** [Math.ceil]. *)
Definition Math_ceil (x : Q) : Z := Qceiling x.

(** [a > b] where either side may be [undefined]: the comparison with
    [undefined] is false. *)
Definition gt_undef (a b : option Z) : bool :=
  match a, b with
  | Some x, Some y => y <? x
  | _, _ => false
  end.

(** [x || d] for a possibly absent fractional number. *)
Definition or_frac (x : option Q) (d : Q) : Q :=
  match x with
  | Some v => if Qeq_bool v 0 then d else v
  | None => d
  end.

(** Template-literal interpolation of an integer. *)
Definition num_to_string (z : Z) : string := pretty z.

(** Results of a division, which need not be finite. *)
Inductive Ext (A : Type) :=
| Fin (x : A)
| PosInfinity
| NegInfinity
| NaN.
Global Arguments Fin {A} x.
Global Arguments PosInfinity {A}.
Global Arguments NegInfinity {A}.
Global Arguments NaN {A}.

(** [a / b] on integers: a zero divisor gives an infinity of the sign of
    [a], or [NaN] for [0 / 0]. *)
Definition div (a b : Z) : Ext Q :=
  if b =? 0 then
    if 0 <? a then PosInfinity else if a <? 0 then NegInfinity else NaN
  else Fin (inject_Z a / inject_Z b)%Q.

Definition Math_ceil_ext (x : Ext Q) : Ext Z :=
  match x with
  | Fin q => Fin (Math_ceil q)
  | PosInfinity => PosInfinity
  | NegInfinity => NegInfinity
  | NaN => NaN
  end.

(** [Math.max(a, b)] with a finite first argument. *)
Definition Math_max_ext (a : Z) (b : Ext Z) : Ext Z :=
  match b with
  | Fin y => Fin (Z.max a y)
  | PosInfinity => PosInfinity
  | NegInfinity => Fin a
  | NaN => NaN
  end.

(** The integer a number denotes, if it is finite. *)
Definition finite (x : Ext Z) : option Z :=
  match x with
  | Fin z => Some z
  | _ => None
  end.

(** The members of [Object.prototype] that are functions. *)
Definition prototype_functions : list string :=
  ["constructor"; "hasOwnProperty"; "isPrototypeOf"; "propertyIsEnumerable";
   "toLocaleString"; "toString"; "valueOf"; "__defineGetter__";
   "__defineSetter__"; "__lookupGetter__"; "__lookupSetter__"].

(** Every name an object literal inherits: the functions, and the
    accessor [__proto__], which yields [Object.prototype] itself. *)
Definition prototype_names : list string :=
  "__proto__" :: prototype_functions.

(** Whether reading [key] on an object literal that has no own property
    of that name finds an inherited member. *)
Definition inherited_name (key : string) : bool :=
  bool_decide (key ∈ prototype_names).

(** The value of a decimal digit. *)
Definition digit (a : Ascii.ascii) : option N :=
  let n := Ascii.N_of_ascii a in
  if (48 <=? n)%N && (n <=? 57)%N then Some (n - 48)%N else None.

Fixpoint digits (s : string) (acc : N) : option N :=
  match s with
  | EmptyString => Some acc
  | String a rest =>
      match digit a with
      | Some d => digits rest (10 * acc + d)%N
      | None => None
      end
  end.

(** The array index a property key denotes: the key is the decimal numeral,
    without a leading zero, of an integer below 2^32 - 1. *)
Definition array_index (key : string) : option N :=
  match key with
  | EmptyString => None
  | String a rest =>
      if (Ascii.N_of_ascii a =? 48)%N && negb (bool_decide (rest = EmptyString))
      then None
      else
        match digits key 0 with
        | Some n => if (n <=? 4294967294)%N then Some n else None
        | None => None
        end
  end.

End Js.

(** ** Data model *)

(** The argument of [solveSBCRequirements] when it is an object: every key
    is either absent ([None]) or present with a value of its documented
    type. *)
Record RawRequirements := {
  raw_players : option Z;
  raw_chemistry : option Z;
  raw_rating : option Z;
  raw_maxCost : option Z;
  raw_leagues : option (list string);
  raw_nations : option (list string);
  raw_clubs : option (list string);
  raw_rarities : option (list string);
  raw_positions : option (gmap string Z);
  raw_maxSameLeague : option Z;
  raw_maxSameNation : option Z;
  raw_maxSameClub : option Z;
  raw_minDifferentLeagues : option Z;
  raw_minDifferentNations : option Z
}.

(** The object [{}]. *)
Definition empty_object : RawRequirements := {|
  raw_players := None; raw_chemistry := None; raw_rating := None;
  raw_maxCost := None; raw_leagues := None; raw_nations := None;
  raw_clubs := None; raw_rarities := None; raw_positions := None;
  raw_maxSameLeague := None; raw_maxSameNation := None;
  raw_maxSameClub := None; raw_minDifferentLeagues := None;
  raw_minDifferentNations := None
|}.

(** Any value a caller may pass to the entry point.  Of an array only the
    fact that it is one matters here. *)
Inductive JsArg :=
| JsUndefined
| JsNull
| JsBoolean (b : bool)
| JsNumber (n : Z)
| JsString (s : string)
| JsFunction
| JsArray (elements : list string)
| JsObject (o : RawRequirements).

Record Constraints := {
  leagues : list string;
  nations : list string;
  clubs : list string;
  rarities : list string;
  positions : gmap string Z
}.

Record Special := {
  maxSameLeague : option Z;
  maxSameNation : option Z;
  maxSameClub : option Z;
  minDifferentLeagues : option Z;
  minDifferentNations : option Z
}.

Record ParsedReqs := {
  squadSize : Z;
  minChemistry : Z;
  minRating : Z;
  maxCost : Z;
  constraints : Constraints;
  special : Special
}.

Record Player := {
  position : string;
  rating : Z;
  league : string;
  nation : string;
  club : string;
  rarity : string;
  cost : Z;
  chemistry : Z
}.

Record Formation := {
  formation_positions : list string;
  chemistryBonus : Z
}.

Record Solution := {
  squad : list Player;
  totalCost : Z;
  totalChemistry : Z;
  totalRating : Z;
  strategy : list string;
  warnings : list string;
  formation : option Formation
}.

Record RarityValue := {
  rarity_min : Z;
  rarity_max : Z;
  rarity_cost : Z
}.

Record PlayerDatabase := {
  db_leagues : list string;
  db_nations : list string;
  rarityValues : gmap string RarityValue
}.

(** The constructor's table. *)
Definition playerDatabase : PlayerDatabase := {|
  db_leagues := ["Premier League"; "La Liga"; "Serie A"; "Bundesliga"; "Ligue 1"];
  db_nations := ["England"; "Spain"; "Italy"; "Germany"; "France"; "Brazil"; "Argentina"];
  rarityValues :=
    <["bronze" := {| rarity_min := 45; rarity_max := 64; rarity_cost := 150 |}]>
    (<["silver" := {| rarity_min := 65; rarity_max := 74; rarity_cost := 400 |}]>
    (<["gold" := {| rarity_min := 75; rarity_max := 99; rarity_cost := 800 |}]> ∅))
|}.

(** ** validateRequirements and parseRequirements *)

(** [!!requirements]. *)
Definition truthy (requirements : JsArg) : bool :=
  match requirements with
  | JsUndefined | JsNull => false
  | JsBoolean b => b
  | JsNumber n => negb (n =? 0)
  | JsString s => negb (bool_decide (s = ""))
  | JsFunction | JsArray _ | JsObject _ => true
  end.

(** [typeof requirements]. *)
Definition typeof (requirements : JsArg) : string :=
  match requirements with
  | JsUndefined => "undefined"
  | JsNull => "object"
  | JsBoolean _ => "boolean"
  | JsNumber _ => "number"
  | JsString _ => "string"
  | JsFunction => "function"
  | JsArray _ | JsObject _ => "object"
  end.

(** [field in requirements] for the keys of a requirements object. *)
Definition has_key (field : string) (o : RawRequirements) : bool :=
  if decide (field = "players") then bool_decide (is_Some (raw_players o))
  else if decide (field = "chemistry") then bool_decide (is_Some (raw_chemistry o))
  else if decide (field = "rating") then bool_decide (is_Some (raw_rating o))
  else if decide (field = "maxCost") then bool_decide (is_Some (raw_maxCost o))
  else if decide (field = "leagues") then bool_decide (is_Some (raw_leagues o))
  else if decide (field = "nations") then bool_decide (is_Some (raw_nations o))
  else if decide (field = "clubs") then bool_decide (is_Some (raw_clubs o))
  else if decide (field = "rarities") then bool_decide (is_Some (raw_rarities o))
  else if decide (field = "positions") then bool_decide (is_Some (raw_positions o))
  else if decide (field = "maxSameLeague") then bool_decide (is_Some (raw_maxSameLeague o))
  else if decide (field = "maxSameNation") then bool_decide (is_Some (raw_maxSameNation o))
  else if decide (field = "maxSameClub") then bool_decide (is_Some (raw_maxSameClub o))
  else if decide (field = "minDifferentLeagues") then bool_decide (is_Some (raw_minDifferentLeagues o))
  else if decide (field = "minDifferentNations") then bool_decide (is_Some (raw_minDifferentNations o))
  else false.

(** [field in requirements], evaluated only once [requirements] is known
    to be a non-null object: an array has index keys and [length] only. *)
Definition key_in (field : string) (requirements : JsArg) : bool :=
  match requirements with
  | JsObject o => has_key field o
  | _ => false
  end.

Definition validateRequirements (requirements : JsArg) : bool :=
  if negb (truthy requirements)
     || negb (bool_decide (typeof requirements = "object"))
  then false
  else
    let requiredFields := ["players"; "chemistry"] in
    forallb (fun field => key_in field requirements) requiredFields.

Definition parseRequirements (requirements : RawRequirements) : ParsedReqs :=
  let parsed := {|
    squadSize := Js.or_num (raw_players requirements) 11;
    minChemistry := Js.or_num (raw_chemistry requirements) 100;
    minRating := Js.or_num (raw_rating requirements) 75;
    maxCost := Js.or_num (raw_maxCost requirements) 50000;
    constraints := {|
      leagues := Js.or_obj (raw_leagues requirements) [];
      nations := Js.or_obj (raw_nations requirements) [];
      clubs := Js.or_obj (raw_clubs requirements) [];
      rarities := Js.or_obj (raw_rarities requirements) [];
      positions := Js.or_obj (raw_positions requirements) ∅
    |};
    special := {|
      maxSameLeague := Js.or_null (raw_maxSameLeague requirements);
      maxSameNation := Js.or_null (raw_maxSameNation requirements);
      maxSameClub := Js.or_null (raw_maxSameClub requirements);
      minDifferentLeagues := Js.or_null (raw_minDifferentLeagues requirements);
      minDifferentNations := Js.or_null (raw_minDifferentNations requirements)
    |}
  |} in
  parsed.

(** ** Formation selection *)

#[export] Instance Formation_inhabited : Inhabited Formation :=
  populate {| formation_positions := []; chemistryBonus := 0 |}.

#[export] Instance RarityValue_inhabited : Inhabited RarityValue :=
  populate {| rarity_min := 0; rarity_max := 0; rarity_cost := 0 |}.

Definition selectOptimalFormation (parsedReqs : ParsedReqs) : Formation :=
  let formations : gmap string Formation :=
    <["4-3-3" := {|
        formation_positions :=
          ["GK"; "LB"; "CB"; "CB"; "RB"; "CM"; "CM"; "CM"; "LW"; "ST"; "RW"];
        chemistryBonus := 5 |}]>
    (<["4-4-2" := {|
        formation_positions :=
          ["GK"; "LB"; "CB"; "CB"; "RB"; "LM"; "CM"; "CM"; "RM"; "ST"; "ST"];
        chemistryBonus := 3 |}]>
    (<["3-5-2" := {|
        formation_positions :=
          ["GK"; "CB"; "CB"; "CB"; "LM"; "CM"; "CM"; "CM"; "RM"; "ST"; "ST"];
        chemistryBonus := 4 |}]> ∅)) in
  formations !!! "4-3-3".

(** ** Per-slot candidate selection *)

(** [currentSquad.reduce((sum, player) => sum + player.rating, 0)]. *)
Definition sum_ratings (currentSquad : list Player) : Z :=
  foldl (fun sum player => sum + rating player) 0 currentSquad.

Definition calculateRequiredRating (parsedReqs : ParsedReqs)
    (currentSquad : list Player) : Js.Ext Z :=
  if decide (length currentSquad = 0%nat) then Js.Fin (minRating parsedReqs)
  else
    let currentTotal := sum_ratings currentSquad in
    let remainingSlots := squadSize parsedReqs - Z.of_nat (length currentSquad) in
    let requiredTotal := minRating parsedReqs * squadSize parsedReqs in
    let requiredForRemaining := requiredTotal - currentTotal in
    Js.Math_max_ext (minRating parsedReqs - 5)
      (Js.Math_ceil_ext (Js.div requiredForRemaining remainingSlots)).

(** Counter objects: [counts[key]]. *)
Fixpoint counts_get (counts : list (string * Z)) (key : string) : option Z :=
  match counts with
  | [] => None
  | (k, n) :: rest => if decide (k = key) then Some n else counts_get rest key
  end.

(** [counts[key] = v]: an existing key keeps its place, a new key goes last. *)
Fixpoint counts_set (counts : list (string * Z)) (key : string) (v : Z)
    : list (string * Z) :=
  match counts with
  | [] => [(key, v)]
  | (k, n) :: rest =>
      if decide (k = key) then (k, v) :: rest
      else (k, n) :: counts_set rest key v
  end.

(** The [forEach] that fills [leagueCounts] / [nationCounts], for a squad
    none of whose attribute values is a member of [Object.prototype] (on
    such a value the code reads the inherited member instead of
    [undefined] and the count stops being a number). *)
Definition count_by (attr : Player → string) (currentSquad : list Player)
    : list (string * Z) :=
  foldl (fun counts player =>
           counts_set counts (attr player)
             (Js.or_num (counts_get counts (attr player)) 0 + 1))
        [] currentSquad.

(** The order of array-index keys. *)
Definition index_le (x y : N * string) : Prop := (x.1 ≤ y.1)%N.

#[export] Instance index_le_dec (x y : N * string) : Decision (index_le x y) :=
  decide ((x.1 ≤ y.1)%N).

(** [Object.keys(counts)]: the keys that are array indices in ascending
    order, then the other keys in the order of their creation. *)
Definition own_keys (counts : list (string * Z)) : list string :=
  let created := counts.*1 in
  let indexed :=
    omap (λ k, match Js.array_index k with
               | Some n => Some (n, k)
               | None => None
               end) created in
  (merge_sort index_le indexed).*2
  ++ filter (λ k, Js.array_index k = None) created.

(** [Object.keys(counts).reduce((a, b) => counts[a] > counts[b] ? a : b, init)]. *)
Definition most_common (counts : list (string * Z)) (init : string) : string :=
  foldl (fun a b =>
           if Js.gt_undef (counts_get counts a) (counts_get counts b) then a else b)
        init (own_keys counts).

Definition selectOptimalLeague (parsedReqs : ParsedReqs)
    (currentSquad : list Player) : string :=
  let constraints := constraints parsedReqs in
  match leagues constraints with
  | first :: _ => first
  | [] =>
      let leagueCounts := count_by league currentSquad in
      let mostCommonLeague :=
        most_common leagueCounts (db_leagues playerDatabase !!! 0%nat) in
      mostCommonLeague
  end.

Definition selectOptimalNation (parsedReqs : ParsedReqs)
    (currentSquad : list Player) : string :=
  let constraints := constraints parsedReqs in
  match nations constraints with
  | first :: _ => first
  | [] =>
      let nationCounts := count_by nation currentSquad in
      let mostCommonNation :=
        most_common nationCounts (db_nations playerDatabase !!! 0%nat) in
      mostCommonNation
  end.

Definition selectOptimalClub (parsedReqs : ParsedReqs)
    (currentSquad : list Player) : string :=
  let constraints := constraints parsedReqs in
  match clubs constraints with
  | first :: _ => first
  | [] => "Manchester City"
  end.

Definition selectOptimalRarity (parsedReqs : ParsedReqs) : string :=
  let constraints := constraints parsedReqs in
  match rarities constraints with
  | first :: _ => first
  | [] =>
      if 85 <=? minRating parsedReqs then "gold"
      else if 75 <=? minRating parsedReqs then "silver"
      else "bronze"
  end.

Definition positionMultipliers : gmap string Q :=
  <["GK" := 12 # 10]> (<["ST" := 13 # 10]> (<["CAM" := 12 # 10]>
  (<["CM" := 11 # 10]> (<["CB" := 1 # 1]> (<["LB" := 1 # 1]>
  (<["RB" := 1 # 1]> ∅)))))).

(** The cost is a number as long as neither [player.rarity] nor
    [player.position] is a member of [Object.prototype]; this is the case
    the definition covers (on such a name the code finds the inherited
    member, the fallback does not apply and the cost is [NaN]). *)
Definition estimatePlayerCost (player : Player) : Z :=
  let baseRarity :=
    Js.or_obj (rarityValues playerDatabase !! rarity player)
              (rarityValues playerDatabase !!! "bronze") in
  let cost := inject_Z (rarity_cost baseRarity) in
  let ratingMultiplier := Qmax 1 ((inject_Z (rating player) - 70) / 10) in
  let cost := (cost * ratingMultiplier)%Q in
  let cost := (cost * Js.or_frac (positionMultipliers !! position player) 1)%Q in
  Js.Math_round cost.

(** [player.cost = v] on a player object. *)
Definition set_cost (player : Player) (v : Z) : Player := {|
  position := position player;
  rating := rating player;
  league := league player;
  nation := nation player;
  club := club player;
  rarity := rarity player;
  cost := v;
  chemistry := chemistry player
|}.

(** [player.chemistry = v] on a player object. *)
Definition set_chemistry (player : Player) (v : Z) : Player := {|
  position := position player;
  rating := rating player;
  league := league player;
  nation := nation player;
  club := club player;
  rarity := rarity player;
  cost := cost player;
  chemistry := v
|}.

(** The player literal, with its cost filled in afterwards.  The rating is
    the only field that can fail to be a finite number; the result is [None]
    in that case and an object, which is truthy, otherwise. *)
Definition findOptimalPlayer (pos : string) (parsedReqs : ParsedReqs)
    (currentSquad : list Player) : option Player :=
  required ← Js.finite (calculateRequiredRating parsedReqs currentSquad);
  let player := {|
    position := pos;
    rating := required;
    league := selectOptimalLeague parsedReqs currentSquad;
    nation := selectOptimalNation parsedReqs currentSquad;
    club := selectOptimalClub parsedReqs currentSquad;
    rarity := selectOptimalRarity parsedReqs;
    cost := 0;
    chemistry := 0
  |} in
  let player := set_cost player (estimatePlayerCost player) in
  Some player.

(** ** Chemistry and rating aggregation *)

(** [squad.filter(p => p !== player && p.attr === player.attr).length], where
    [player] is the element at [index]. *)
Definition count_links (attr : Player → string) (squad : list Player)
    (index : nat) (player : Player) : Z :=
  Z.of_nat (length (filter (λ jp : nat * Player,
                              jp.1 ≠ index ∧ attr jp.2 = attr player)
                           (imap pair squad))).

(** One round of the [forEach] of [calculateChemistry]: the state is the
    squad, whose players are updated in place, and the running total. *)
Definition chemistry_step (acc : list Player * Z) (index : nat)
    : list Player * Z :=
  let '(squad, totalChemistry) := acc in
  match squad !! index with
  | None => acc
  | Some player =>
      let playerChemistry := 0 in
      let playerChemistry := playerChemistry + 10 in
      let leagueLinks := count_links league squad index player in
      let playerChemistry := playerChemistry + Z.min (leagueLinks * 2) 8 in
      let nationLinks := count_links nation squad index player in
      let playerChemistry := playerChemistry + Z.min (nationLinks * 1) 6 in
      let clubLinks := count_links club squad index player in
      let playerChemistry := playerChemistry + Z.min (clubLinks * 3) 12 in
      let player := set_chemistry player (Z.min playerChemistry 10) in
      (<[index := player]> squad, totalChemistry + chemistry player)
  end.

(** Returns the squad as the loop leaves it together with the total. *)
Definition calculateChemistry (squad : list Player) (parsedReqs : ParsedReqs)
    : list Player * Z :=
  let '(squad, totalChemistry) :=
    foldl chemistry_step (squad, 0) (seq 0 (length squad)) in
  (squad, Js.Math_round (inject_Z totalChemistry)).

Definition calculateSquadRating (squad : list Player) : Z :=
  if decide (length squad = 0%nat) then 0
  else
    let totalRating := sum_ratings squad in
    Js.Math_round (inject_Z totalRating / inject_Z (Z.of_nat (length squad))).

(** ** Squad construction *)

(** [solution.squad.push(player); solution.totalCost += player.cost]. *)
Definition push_player (solution : Solution) (player : Player) : Solution := {|
  squad := squad solution ++ [player];
  totalCost := totalCost solution + cost player;
  totalChemistry := totalChemistry solution;
  totalRating := totalRating solution;
  strategy := strategy solution;
  warnings := warnings solution;
  formation := formation solution
|}.

(** One round of the slot loop.  [findOptimalPlayer] returns an object, so
    the guard [if (playerSuggestion)] always passes; [None] is a rating
    outside the number model, not a skipped slot. *)
Definition fill_slot (formation : Formation) (parsedReqs : ParsedReqs)
    (solution : Solution) (i : nat) : option Solution :=
  let pos := Js.or_str (formation_positions formation !! i) "SUB" in
  playerSuggestion ← findOptimalPlayer pos parsedReqs (squad solution);
  Some (push_player solution playerSuggestion).

(** [for (let i = start; i < start + count; i++)]. *)
Fixpoint fill_slots (formation : Formation) (parsedReqs : ParsedReqs)
    (solution : Solution) (start : nat) (count : nat) : option Solution :=
  match count with
  | O => Some solution
  | S count' =>
      solution ← fill_slot formation parsedReqs solution start;
      fill_slots formation parsedReqs solution (S start) count'
  end.

(** [solution.formation = f]. *)
Definition set_formation (solution : Solution) (f : Formation) : Solution := {|
  squad := squad solution;
  totalCost := totalCost solution;
  totalChemistry := totalChemistry solution;
  totalRating := totalRating solution;
  strategy := strategy solution;
  warnings := warnings solution;
  formation := Some f
|}.

(** The two assignments that end [generateSolution]; [players] is the squad
    array after [calculateChemistry] has written every [player.chemistry]. *)
Definition set_totals (solution : Solution) (players : list Player)
    (chem : Z) (rat : Z) : Solution := {|
  squad := players;
  totalCost := totalCost solution;
  totalChemistry := chem;
  totalRating := rat;
  strategy := strategy solution;
  warnings := warnings solution;
  formation := formation solution
|}.

Definition generateSolution (parsedReqs : ParsedReqs) : option Solution :=
  let solution := {|
    squad := [];
    totalCost := 0;
    totalChemistry := 0;
    totalRating := 0;
    strategy := [];
    warnings := [];
    formation := None
  |} in
  let selected := selectOptimalFormation parsedReqs in
  let solution := set_formation solution selected in
  solution ← fill_slots selected parsedReqs solution 0
                (Z.to_nat (squadSize parsedReqs));
  let '(players, chem) := calculateChemistry (squad solution) parsedReqs in
  Some (set_totals solution players chem (calculateSquadRating players)).

(** ** Requirement check and advisory messages *)

Record Checks := {
  check_chemistry : bool;
  check_rating : bool;
  check_cost : bool;
  check_squadSize : bool
}.

Record CheckResult := {
  success : bool;
  checks : Checks
}.

Definition checkRequirements (solution : Solution) (parsedReqs : ParsedReqs)
    : CheckResult :=
  let checks := {|
    check_chemistry := minChemistry parsedReqs <=? totalChemistry solution;
    check_rating := minRating parsedReqs <=? totalRating solution;
    check_cost := totalCost solution <=? maxCost parsedReqs;
    check_squadSize :=
      bool_decide (Z.of_nat (length (squad solution)) = squadSize parsedReqs)
  |} in
  (* Object.values(checks).every(check => check) *)
  let success :=
    forallb (fun check => check)
      [check_chemistry checks; check_rating checks;
       check_cost checks; check_squadSize checks] in
  {| success := success; checks := checks |}.

(** [solution.warnings.push(w)]. *)
Definition push_warning (solution : Solution) (w : string) : Solution := {|
  squad := squad solution;
  totalCost := totalCost solution;
  totalChemistry := totalChemistry solution;
  totalRating := totalRating solution;
  strategy := strategy solution;
  warnings := warnings solution ++ [w];
  formation := formation solution
|}.

(** [solution.strategy.push(t)]. *)
Definition push_strategy (solution : Solution) (t : string) : Solution := {|
  squad := squad solution;
  totalCost := totalCost solution;
  totalChemistry := totalChemistry solution;
  totalRating := totalRating solution;
  strategy := strategy solution ++ [t];
  warnings := warnings solution;
  formation := formation solution
|}.

Definition optimizeSolution (solution : Solution) (parsedReqs : ParsedReqs)
    : Solution :=
  let meetsRequirements := checkRequirements solution parsedReqs in
  let solution :=
    if negb (success meetsRequirements) then
      let solution :=
        push_warning solution "Solution does not meet all requirements" in
      push_strategy solution
        "Consider increasing budget or relaxing constraints"
    else solution in
  let solution :=
    push_strategy solution "Use loyalty glitch for +1 chemistry per player" in
  let solution :=
    push_strategy solution "Consider position change cards if needed" in
  let solution :=
    push_strategy solution "Check market for price fluctuations" in
  let solution :=
    if maxCost parsedReqs <? totalCost solution then
      let solution :=
        push_strategy solution "Reduce player ratings to lower cost" in
      push_warning solution
        ("Solution exceeds budget by "
           +:+ Js.num_to_string (totalCost solution - maxCost parsedReqs)
           +:+ " coins")
    else solution in
  let solution :=
    if totalChemistry solution <? minChemistry parsedReqs then
      let solution :=
        push_strategy solution "Focus on same league/nation links" in
      push_warning solution
        ("Chemistry " +:+ Js.num_to_string (totalChemistry solution)
           +:+ " below required "
           +:+ Js.num_to_string (minChemistry parsedReqs))
    else solution in
  solution.

(** ** Entry points *)

(** How a [try] block ends. *)
Inductive Completion (A : Type) :=
| Normal (a : A)
| Throw (message : string).
Arguments Normal {A} a.
Arguments Throw {A} message.

(** What an entry point hands back: the literal
    [{ error: message, success: false }] of the failure paths, or the
    solution object, whose keys are those of the literal in
    [generateSolution] plus [formation]. *)
Inductive SolveResult :=
| ErrorResult (error : string) (failure_success : bool)
| SolutionResult (solution : Solution).

(** [Object.keys(result)]. *)
Definition result_keys (result : SolveResult) : list string :=
  match result with
  | ErrorResult _ _ => ["error"; "success"]
  | SolutionResult _ =>
      ["squad"; "totalCost"; "totalChemistry"; "totalRating"; "strategy";
       "warnings"; "formation"]
  end.

(** [result.success]; [None] is [undefined], the value of a missing key. *)
Definition result_success (result : SolveResult) : option bool :=
  match result with
  | ErrorResult _ b => Some b
  | SolutionResult _ => None
  end.

(** [result.error]. *)
Definition result_error (result : SolveResult) : option string :=
  match result with
  | ErrorResult e _ => Some e
  | SolutionResult _ => None
  end.

(** [try { body } catch (error) { handler(error.message) }]. *)
Definition try_catch {A : Type} (body : Completion A)
    (handler : string → Completion A) : Completion A :=
  match body with
  | Normal a => Normal a
  | Throw message => handler message
  end.

(** The body of the [try] block.  The outer [option] is [None] when a
    number leaves the model. *)
Definition solve_try (sbcRequirements : JsArg)
    : option (Completion SolveResult) :=
  if negb (validateRequirements sbcRequirements) then
    Some (Throw "Invalid SBC requirements provided")
  else
    match sbcRequirements with
    | JsObject o =>
        let parsedReqs := parseRequirements o in
        solution ← generateSolution parsedReqs;
        let optimizedSolution := optimizeSolution solution parsedReqs in
        Some (Normal (SolutionResult optimizedSolution))
    | _ =>
        (* not reached: validation rejects whatever is not an object *)
        Some (Throw "requirements is not an object")
    end.

Definition solveSBCRequirements (sbcRequirements : JsArg)
    : option (Completion SolveResult) :=
  body ← solve_try sbcRequirements;
  Some (try_catch body (λ message, Normal (ErrorResult message false))).

(** The object literals of [commonSBCs] set these five keys at most. *)
Definition preset (players chemistry rating maxCost : Z)
    (rarities : option (list string)) : RawRequirements := {|
  raw_players := Some players;
  raw_chemistry := Some chemistry;
  raw_rating := Some rating;
  raw_maxCost := Some maxCost;
  raw_leagues := None;
  raw_nations := None;
  raw_clubs := None;
  raw_rarities := rarities;
  raw_positions := None;
  raw_maxSameLeague := None;
  raw_maxSameNation := None;
  raw_maxSameClub := None;
  raw_minDifferentLeagues := None;
  raw_minDifferentNations := None
|}.

Definition commonSBCs : gmap string RawRequirements :=
  <["daily_bronze" := preset 11 95 65 5000 (Some ["bronze"])]>
  (<["daily_silver" := preset 11 95 70 8000 (Some ["silver"])]>
  (<["daily_gold" := preset 11 95 75 12000 (Some ["gold"])]>
  (<["82_plus_pick" := preset 11 95 82 15000 None]>
  (<["84_plus_upgrade" := preset 11 95 84 25000 None]> ∅)))).

(** What reading [key] on an object literal yields when the literal has
    no own property of that name: [Object.prototype] for [__proto__], an
    object with none of the requirement keys; a function for the other
    inherited names; [undefined] ([None]) otherwise. *)
Definition inherited_member (key : string) : option JsArg :=
  if decide (key = "__proto__") then Some (JsObject empty_object)
  else if decide (key ∈ Js.prototype_functions) then Some JsFunction
  else None.

Definition quickSolve (sbcType : string)
    : option (Completion SolveResult) :=
  let requirements :=
    match commonSBCs !! sbcType with
    | Some preset => Some (JsObject preset)
    | None => inherited_member sbcType
    end in
  match requirements with
  | None =>
      Some (Normal (ErrorResult ("Unknown SBC type: " +:+ sbcType) false))
  | Some requirements => solveSBCRequirements requirements
  end.

(** ** Definitions used by the statements *)

(** The sum of the ratings of a squad, as the mean of the specification
    takes it. *)
Definition ratings_total (squad : list Player) : Z :=
  foldr Z.add 0 (rating <$> squad).

(** A player with a given rating, for the worked examples. *)
Definition rated (r : Z) : Player := {|
  position := "CM"; rating := r; league := "Premier League";
  nation := "England"; club := "Manchester City"; rarity := "silver";
  cost := 0; chemistry := 0
|}.

(** [{ players: p, chemistry: c }]. *)
Definition minimal_object (p c : Z) : RawRequirements := {|
  raw_players := Some p; raw_chemistry := Some c; raw_rating := None;
  raw_maxCost := None; raw_leagues := None; raw_nations := None;
  raw_clubs := None; raw_rarities := None; raw_positions := None;
  raw_maxSameLeague := None; raw_maxSameNation := None;
  raw_maxSameClub := None; raw_minDifferentLeagues := None;
  raw_minDifferentNations := None
|}.

(** The base cost looked up for a rarity, with the bronze fallback. *)
Definition base_cost (r : string) : Z :=
  rarity_cost (Js.or_obj (rarityValues playerDatabase !! r)
                         (rarityValues playerDatabase !!! "bronze")).

(** The position multiplier, with the fallback 1.0. *)
Definition position_multiplier (pos : string) : Q :=
  Js.or_frac (positionMultipliers !! pos) 1.

(** Neither the rarity nor the position of the player is the name of a
    member of [Object.prototype]: both table lookups of
    [estimatePlayerCost] find an entry of the table or nothing, and the
    cost is a number. *)
Definition plain_names (player : Player) : bool :=
  negb (Js.inherited_name (rarity player))
  && negb (Js.inherited_name (position player)).

(** A player of the given position, rating and rarity. *)
Definition card (pos : string) (r : Z) (rar : string) : Player := {|
  position := pos; rating := r; league := "Premier League";
  nation := "England"; club := "Manchester City"; rarity := rar;
  cost := 0; chemistry := 0
|}.

(** The number of other squad members that share an attribute with the
    member in place [i]: the squad without that member, filtered. *)
Definition squad_mates (attr : Player → string) (squad : list Player)
    (i : nat) : Z :=
  match squad !! i with
  | Some player =>
      Z.of_nat (length (filter (λ p, attr p = attr player) (delete i squad)))
  | None => 0
  end.

(** The chemistry of the member in place [i], in the words of the
    specification. *)
Definition chemistry_spec (squad : list Player) (i : nat) : Z :=
  Z.min (10
         + Z.min (2 * squad_mates league squad i) 8
         + Z.min (1 * squad_mates nation squad i) 6
         + Z.min (3 * squad_mates club squad i) 12)
        10.

(** The squad once the first [k] members have their chemistry written. *)
Definition chemistry_written (squad : list Player) (k : nat) : list Player :=
  imap (λ i p, if decide (i < k)%nat
               then set_chemistry p (chemistry_spec squad i) else p) squad.

(** The total of the first [k] members. *)
Definition chemistry_partial (squad : list Player) (k : nat) : Z :=
  foldr Z.add 0 (chemistry_spec squad <$> seq 0 k).

(** The labels of the formation that is always selected. *)
Definition labels_433 : list string :=
  ["GK"; "LB"; "CB"; "CB"; "RB"; "CM"; "CM"; "CM"; "LW"; "ST"; "RW"].

(** The names of the presets. *)
Definition preset_names : list string :=
  ["daily_bronze"; "daily_silver"; "daily_gold"; "82_plus_pick";
   "84_plus_upgrade"].

(** A normalized record with its distribution limits and its positions
    map blanked. *)
Definition blank_unread (parsedReqs : ParsedReqs) : ParsedReqs := {|
  squadSize := squadSize parsedReqs;
  minChemistry := minChemistry parsedReqs;
  minRating := minRating parsedReqs;
  maxCost := maxCost parsedReqs;
  constraints := {|
    leagues := leagues (constraints parsedReqs);
    nations := nations (constraints parsedReqs);
    clubs := clubs (constraints parsedReqs);
    rarities := rarities (constraints parsedReqs);
    positions := ∅
  |};
  special := {|
    maxSameLeague := None;
    maxSameNation := None;
    maxSameClub := None;
    minDifferentLeagues := None;
    minDifferentNations := None
  |}
|}.

(** [{ players: 11, chemistry: 95 }] with distribution limits and a
    positions map added. *)
Definition limited_object : RawRequirements := {|
  raw_players := Some 11; raw_chemistry := Some 95; raw_rating := None;
  raw_maxCost := None; raw_leagues := None; raw_nations := None;
  raw_clubs := None; raw_rarities := None;
  raw_positions := Some (<["GK" := 1]> ∅);
  raw_maxSameLeague := Some 4; raw_maxSameNation := Some 3;
  raw_maxSameClub := Some 1; raw_minDifferentLeagues := Some 5;
  raw_minDifferentNations := Some 8
|}.

(** ** Market suggestions *)

Record SearchFilters := {
  filter_league : string;
  filter_nation : string;
  filter_rating : string;
  maxPrice : Z
}.

Record Suggestion := {
  suggestion_position : string;
  searchFilters : SearchFilters;
  alternatives : list string
}.

(** The object pushed for one player. *)
Definition suggestion_of (player : Player) : Suggestion := {|
  suggestion_position := position player;
  searchFilters := {|
    filter_league := league player;
    filter_nation := nation player;
    filter_rating :=
      Js.num_to_string (rating player - 2) +:+ "-"
        +:+ Js.num_to_string (rating player + 2);
    maxPrice := cost player
  |};
  alternatives :=
    ["Try " +:+ position player +:+ " from " +:+ league player;
     "Consider " +:+ nation player +:+ " players";
     "Look for " +:+ rarity player +:+ " cards"]
|}.

(** [solution.squad.forEach(player => suggestions.push({...}))]. *)
Definition getMarketSuggestions (solution : Solution) : list Suggestion :=
  let suggestions := [] in
  foldl (fun suggestions player => suggestions ++ [suggestion_of player])
        suggestions (squad solution).

(** ** Further definitions used by the statements *)

(** How many members of a squad have the value [k] for an attribute. *)
Definition occurrences (attr : Player → string) (squad : list Player)
    (k : string) : Z :=
  Z.of_nat (length (filter (λ p, attr p = k) squad)).

(** The league, nation and club every slot of a build receives. *)
Definition house_league (parsedReqs : ParsedReqs) : string :=
  match leagues (constraints parsedReqs) with
  | first :: _ => first
  | [] => "Premier League"
  end.

Definition house_nation (parsedReqs : ParsedReqs) : string :=
  match nations (constraints parsedReqs) with
  | first :: _ => first
  | [] => "England"
  end.

Definition house_club (parsedReqs : ParsedReqs) : string :=
  match clubs (constraints parsedReqs) with
  | first :: _ => first
  | [] => "Manchester City"
  end.

(** The player of slot [i] as the slot loop appends it. *)
Definition slot_player (parsedReqs : ParsedReqs) (i : nat) : Player :=
  let player := {|
    position := default "SUB" (labels_433 !! i);
    rating := minRating parsedReqs;
    league := house_league parsedReqs;
    nation := house_nation parsedReqs;
    club := house_club parsedReqs;
    rarity := selectOptimalRarity parsedReqs;
    cost := 0;
    chemistry := 0
  |} in
  set_cost player (estimatePlayerCost player).

(** A squad every member of which has the rating, league, nation and club
    that the slot loop hands out. *)
Definition house_squad (parsedReqs : ParsedReqs) (currentSquad : list Player)
    : Prop :=
  ∀ p, p ∈ currentSquad →
    rating p = minRating parsedReqs
    ∧ league p = house_league parsedReqs
    ∧ nation p = house_nation parsedReqs
    ∧ club p = house_club parsedReqs.

(** The three tips [optimizeSolution] gives whatever the outcome. *)
Definition fixed_tips : list string :=
  ["Use loyalty glitch for +1 chemistry per player";
   "Consider position change cards if needed";
   "Check market for price fluctuations"].

(** The sum of the costs of a squad. *)
Definition costs_total (squad : list Player) : Z :=
  foldr Z.add 0 (cost <$> squad).

(** * Properties *)

(** ** Arithmetic of the JavaScript primitives *)

Lemma Math_round_integer (z : Z) : Js.Math_round (inject_Z z) = z.
Proof.
  unfold Js.Math_round, Qfloor, Qplus, inject_Z; simpl.
  symmetry; apply (Z.div_unique _ _ _ 1); lia.
Qed.

Lemma Math_round_mono (x y : Q) :
  (x <= y)%Q → Js.Math_round x <= Js.Math_round y.
Proof.
  intros Hxy. unfold Js.Math_round.
  apply Qfloor_resp_le, Qplus_le_compat; [exact Hxy | apply Qle_refl].
Qed.

Section Quotient.

Variables a b : Z.
Hypothesis b_positive : 0 < b.

(** [Math.round(a / b)] for a positive divisor, in integer terms. *)
Lemma Math_round_quotient :
  let r := Js.Math_round (inject_Z a / inject_Z b) in
  2 * r * b - b <= 2 * a < 2 * r * b + b.
Proof.
  destruct b as [|p|p]; try lia.
  unfold Js.Math_round, Qfloor, Qdiv, Qinv, Qmult, Qplus, inject_Z;
    cbn [Qnum Qden].
  rewrite Pos.mul_1_l, Pos2Z.inj_mul.
  pose proof (Z.div_mod (a * 1 * 2 + 1 * Z.pos p) (Z.pos p * 2)
                ltac:(lia)) as Hdm.
  pose proof (Z.mod_pos_bound (a * 1 * 2 + 1 * Z.pos p) (Z.pos p * 2)
                ltac:(lia)) as Hrem.
  cbv zeta. nia.
Qed.

(** [Math.ceil(a / b)] for a positive divisor, in integer terms. *)
Lemma Math_ceil_quotient :
  let c := Js.Math_ceil (inject_Z a / inject_Z b) in
  (c - 1) * b < a <= c * b.
Proof.
  destruct b as [|p|p]; try lia.
  unfold Js.Math_ceil, Qceiling, Qfloor, Qopp, Qdiv, Qinv, Qmult, inject_Z;
    cbn [Qnum Qden].
  rewrite Pos.mul_1_l.
  pose proof (Z.div_mod (- (a * 1)) (Z.pos p) ltac:(lia)) as Hdm.
  pose proof (Z.mod_pos_bound (- (a * 1)) (Z.pos p) ltac:(lia)) as Hrem.
  cbv zeta. nia.
Qed.

End Quotient.

Lemma sum_ratings_from (squad : list Player) (start : Z) :
  foldl (fun sum player => sum + rating player) start squad
  = start + ratings_total squad.
Proof.
  revert start; induction squad as [|p squad IH]; intros start.
  - unfold ratings_total. cbn. lia.
  - cbn [foldl]. rewrite IH. unfold ratings_total.
    rewrite fmap_cons. cbn [foldr]. lia.
Qed.

Lemma sum_ratings_total (squad : list Player) :
  sum_ratings squad = ratings_total squad.
Proof. unfold sum_ratings. rewrite sum_ratings_from. lia. Qed.

(** ** Normalization *)

(** C2, as the code has it: the object [{ players: 11, chemistry: 0 }]
    passes validation, its minimum chemistry 0 is present and lies in
    [0, 100], and [parseRequirements] replaces it by the default 100. *)
Theorem parseRequirements_zero_chemistry_defaulted :
  validateRequirements (JsObject (minimal_object 11 0)) = true
  ∧ raw_chemistry (minimal_object 11 0) = Some 0
  ∧ minChemistry (parseRequirements (minimal_object 11 0)) = 100.
Proof. repeat split; reflexivity. Qed.

(** Every present chemistry value other than 0 is kept, and an absent one
    becomes 100. *)
Lemma parseRequirements_chemistry (o : RawRequirements) :
  minChemistry (parseRequirements o)
  = match raw_chemistry o with
    | Some 0 | None => 100
    | Some c => c
    end.
Proof.
  unfold parseRequirements; simpl. unfold Js.or_num.
  destruct (raw_chemistry o) as [[|c|c]|]; reflexivity.
Qed.

(** ** Squad rating *)

(** C8: the aggregate rating of the empty squad is 0; for a non-empty squad
    of [n] players whose ratings add up to [t] it is the integer [r] with
    [r - 1/2 <= t/n < r + 1/2], the mean rounded to the nearest integer with
    ties upwards; the ratings 70 and 71 give 71. *)
Theorem calculateSquadRating_rounded_mean :
  calculateSquadRating [] = 0
  ∧ (∀ squad : list Player,
       squad ≠ [] →
       let n := Z.of_nat (length squad) in
       let t := ratings_total squad in
       let r := calculateSquadRating squad in
       2 * r * n - n <= 2 * t < 2 * r * n + n)
  ∧ calculateSquadRating [rated 70; rated 71] = 71.
Proof.
  split; [reflexivity | split; [| reflexivity]].
  intros squad Hne n t r. subst n t r.
  unfold calculateSquadRating.
  destruct (decide (length squad = 0%nat)) as [Hlen | Hlen].
  - destruct squad; [congruence | discriminate].
  - rewrite sum_ratings_total. apply Math_round_quotient. lia.
Qed.

Lemma calculateSquadRating_rounded_mean_witness :
  let squad := [rated 70; rated 71; rated 74] in
  let r := calculateSquadRating squad in
  2 * r * 3 - 3 <= 2 * 215 < 2 * r * 3 + 3.
Proof.
  destruct calculateSquadRating_rounded_mean as (_ & H & _).
  apply (H [rated 70; rated 71; rated 74]). discriminate.
Defined.

(** ** Required rating of a slot *)

(** C5: for the first slot the rating is the minimum rating; for a later
    slot, with [remaining] slots still open and ratings adding up to
    [total] already placed, it is [max (minRating - 5) c] where [c] is the
    ceiling of [(minRating * squadSize - total) / remaining]. *)
Theorem calculateRequiredRating_per_slot (parsedReqs : ParsedReqs)
    (currentSquad : list Player) :
  (currentSquad = [] →
     calculateRequiredRating parsedReqs currentSquad
     = Js.Fin (minRating parsedReqs))
  ∧ (currentSquad ≠ [] →
     let remaining := squadSize parsedReqs - Z.of_nat (length currentSquad) in
     let needed :=
       minRating parsedReqs * squadSize parsedReqs - ratings_total currentSquad in
     0 < remaining →
     ∃ c : Z,
       (c - 1) * remaining < needed <= c * remaining
       ∧ calculateRequiredRating parsedReqs currentSquad
         = Js.Fin (Z.max (minRating parsedReqs - 5) c)).
Proof.
  split.
  - intros ->. reflexivity.
  - intros Hne remaining needed Hrem.
    unfold calculateRequiredRating.
    destruct (decide (length currentSquad = 0%nat)) as [Hlen | Hlen].
    { destruct currentSquad; [congruence | discriminate]. }
    rewrite sum_ratings_total. fold remaining. fold needed.
    unfold Js.div. destruct (Z.eqb_spec remaining 0) as [Hz | Hz]; [lia |].
    simpl. eexists; split; [| reflexivity].
    apply Math_ceil_quotient; exact Hrem.
Qed.

Lemma calculateRequiredRating_per_slot_witness :
  calculateRequiredRating (parseRequirements (minimal_object 11 95)) []
  = Js.Fin 75
  ∧ ∃ c : Z,
      (c - 1) * 9 < 75 * 11 - 150 <= c * 9
      ∧ calculateRequiredRating (parseRequirements (minimal_object 11 95))
          [rated 80; rated 70]
        = Js.Fin (Z.max (75 - 5) c).
Proof.
  pose proof (calculateRequiredRating_per_slot
                (parseRequirements (minimal_object 11 95))) as H.
  split.
  - apply (H []). reflexivity.
  - apply (H [rated 80; rated 70]); [discriminate | reflexivity].
Defined.

(** ** Cost estimate *)

Lemma base_cost_tiers (r : string) :
  base_cost "bronze" = 150 ∧ base_cost "silver" = 400 ∧ base_cost "gold" = 800
  ∧ (base_cost r = 150 ∨ base_cost r = 400 ∨ base_cost r = 800).
Proof.
  repeat split; try reflexivity.
  unfold base_cost, playerDatabase; cbn [rarityValues].
  destruct (decide (r = "bronze")) as [-> | Hb]; [left; reflexivity |].
  destruct (decide (r = "silver")) as [-> | Hs]; [right; left; reflexivity |].
  destruct (decide (r = "gold")) as [-> | Hg]; [right; right; reflexivity |].
  left. rewrite !lookup_insert_ne by congruence. rewrite lookup_empty.
  reflexivity.
Qed.

Lemma position_multiplier_nonneg (pos : string) :
  (0 <= position_multiplier pos)%Q.
Proof.
  unfold position_multiplier, positionMultipliers.
  destruct (decide (pos = "GK")) as [-> | ?]; [discriminate |].
  destruct (decide (pos = "ST")) as [-> | ?]; [discriminate |].
  destruct (decide (pos = "CAM")) as [-> | ?]; [discriminate |].
  destruct (decide (pos = "CM")) as [-> | ?]; [discriminate |].
  destruct (decide (pos = "CB")) as [-> | ?]; [discriminate |].
  destruct (decide (pos = "LB")) as [-> | ?]; [discriminate |].
  destruct (decide (pos = "RB")) as [-> | ?]; [discriminate |].
  rewrite !lookup_insert_ne by congruence. rewrite lookup_empty.
  discriminate.
Qed.

Lemma estimatePlayerCost_unfold (player : Player) :
  estimatePlayerCost player
  = Js.Math_round
      (inject_Z (base_cost (rarity player))
       * Qmax 1 ((inject_Z (rating player) - 70) / 10)
       * position_multiplier (position player))%Q.
Proof. reflexivity. Qed.

(** C9: with the rarity and the position fixed, the estimated cost does not
    decrease when the rating grows.  The rarity and the position are names
    that [Object.prototype] does not have ([plain_names]): these are the
    players whose cost is a number. *)
Theorem estimatePlayerCost_monotone (p1 p2 : Player) :
  plain_names p1 = true →
  rarity p1 = rarity p2 →
  position p1 = position p2 →
  rating p1 <= rating p2 →
  estimatePlayerCost p1 <= estimatePlayerCost p2.
Proof.
  intros _ Hrar Hpos Hle.
  rewrite !estimatePlayerCost_unfold, Hrar, Hpos.
  apply Math_round_mono.
  apply Qmult_le_compat_r; [| apply position_multiplier_nonneg].
  rewrite !(Qmult_comm (inject_Z (base_cost (rarity p2)))).
  apply Qmult_le_compat_r.
  - apply Q.max_le_compat_l.
    apply Qmult_le_compat_r; [| discriminate].
    apply Qplus_le_compat; [| apply Qle_refl].
    rewrite <- Zle_Qle. exact Hle.
  - change 0%Q with (inject_Z 0). rewrite <- Zle_Qle.
    destruct (base_cost_tiers (rarity p2)) as (_ & _ & _ & [H | [H | H]]);
      rewrite H; lia.
Qed.

Lemma estimatePlayerCost_monotone_witness :
  estimatePlayerCost (card "ST" 70 "silver")
  <= estimatePlayerCost (card "ST" 90 "silver").
Proof.
  apply estimatePlayerCost_monotone;
    [vm_compute; reflexivity | reflexivity | reflexivity | simpl; lia].
Defined.

(** The worked figures of the cost formula: the three tiers at rating 70 for
    a position without multiplier, and a silver striker at 70 and at 90. *)
Example estimatePlayerCost_figures :
  estimatePlayerCost (card "SUB" 70 "bronze") = 150
  ∧ estimatePlayerCost (card "SUB" 70 "silver") = 400
  ∧ estimatePlayerCost (card "SUB" 70 "gold") = 800
  ∧ estimatePlayerCost (card "ST" 70 "silver") = 520
  ∧ estimatePlayerCost (card "ST" 90 "silver") = 1040
  ∧ estimatePlayerCost (card "GK" 95 "gold") = 2400.
Proof. repeat split; vm_compute; reflexivity. Qed.

(** ** Chemistry *)

(** Filtering the indexed squad: places other than [k + i] that satisfy
    [P] are the members of [delete i] that satisfy [P]. *)
Lemma filter_indexed_other (P : Player → Prop) `{!∀ p, Decision (P p)}
    (squad : list Player) (k i : nat) :
  length (filter (λ jp : nat * Player, jp.1 ≠ (k + i)%nat ∧ P jp.2)
                 (imap (λ j p, ((k + j)%nat, p)) squad))
  = length (filter P (delete i squad)).
Proof.
  revert k i. induction squad as [|x squad IH]; intros k i; [reflexivity |].
  rewrite imap_cons. destruct i as [|i].
  - rewrite filter_cons_False by (simpl; lia).
    cbn [delete list_delete]. clear IH.
    assert (∀ m : nat, (k < m)%nat →
              length (filter (λ jp : nat * Player, jp.1 ≠ (k + 0)%nat ∧ P jp.2)
                        (imap (λ j p, ((m + j)%nat, p)) squad))
              = length (filter P squad)) as Hshift.
    { induction squad as [|y squad IH]; intros m Hm; [reflexivity |].
      rewrite imap_cons, !filter_cons.
      assert (imap ((λ j p, ((m + j)%nat, p)) ∘ S) squad
              = imap (λ j p, ((S m + j)%nat, p)) squad) as ->.
      { apply imap_ext. intros j p _. simpl. f_equal. lia. }
      specialize (IH (S m) ltac:(lia)).
      destruct (decide (P y)) as [Hy | Hy].
      - rewrite decide_True by (simpl; split; [lia | exact Hy]).
        simpl. f_equal. exact IH.
      - rewrite decide_False by (simpl; tauto). exact IH. }
    assert (imap ((λ j p, ((k + j)%nat, p)) ∘ S) squad
            = imap (λ j p, ((S k + j)%nat, p)) squad) as ->.
    { apply imap_ext. intros j p _. simpl. f_equal. lia. }
    apply Hshift. lia.
  - cbn [delete list_delete].
    assert (imap ((λ j p, ((k + j)%nat, p)) ∘ S) squad
            = imap (λ j p, ((S k + j)%nat, p)) squad) as ->.
    { apply imap_ext. intros j p _. simpl. f_equal. lia. }
    rewrite !filter_cons.
    replace (k + S i)%nat with (S k + i)%nat by lia.
    destruct (decide (P x)) as [Hx | Hx].
    + rewrite decide_True by (simpl; split; [lia | exact Hx]).
      simpl. f_equal. exact (IH (S k) i).
    + rewrite decide_False by (simpl; tauto). exact (IH (S k) i).
Qed.

(** Links are counted on one attribute at a time, and writing a chemistry
    value leaves every such attribute as it is. *)
Section Links.

Variable attr : Player → string.
Hypothesis attr_kept : ∀ (p : Player) (v : Z), attr (set_chemistry p v) = attr p.

Lemma squad_mates_nonneg (squad : list Player) (i : nat) :
  0 <= squad_mates attr squad i.
Proof. unfold squad_mates. destruct (squad !! i); lia. Qed.

Lemma count_links_mates (squad : list Player) (index : nat) (player : Player) :
  squad !! index = Some player →
  count_links attr squad index player = squad_mates attr squad index.
Proof.
  intros Hl. unfold count_links, squad_mates. rewrite Hl. f_equal.
  exact (filter_indexed_other (λ p, attr p = attr player) squad 0 index).
Qed.

(** Rewriting the members place by place, without touching an attribute,
    does not change what a filter on that attribute keeps. *)
Lemma filter_attr_imap (a : string)
    (h : nat → Player → Player) (squad : list Player) :
  (∀ j p, attr (h j p) = attr p) →
  length (filter (λ p, attr p = a) (imap h squad))
  = length (filter (λ p, attr p = a) squad).
Proof.
  revert h. induction squad as [|x squad IH]; intros h Hh; [reflexivity |].
  assert (Hh' : ∀ j p, attr ((h ∘ S) j p) = attr p) by (intros; apply Hh).
  rewrite imap_cons, !filter_cons, Hh.
  destruct (decide (attr x = a)); simpl; rewrite (IH _ Hh'); reflexivity.
Qed.

Lemma filter_attr_delete_imap (a : string)
    (h : nat → Player → Player) (squad : list Player) (i : nat) :
  (∀ j p, attr (h j p) = attr p) →
  length (filter (λ p, attr p = a) (delete i (imap h squad)))
  = length (filter (λ p, attr p = a) (delete i squad)).
Proof.
  revert h i. induction squad as [|x squad IH]; intros h i Hh.
  - destruct i; reflexivity.
  - assert (Hh' : ∀ j p, attr ((h ∘ S) j p) = attr p) by (intros; apply Hh).
    rewrite imap_cons. destruct i as [|i]; cbn [delete list_delete].
    + apply filter_attr_imap, Hh'.
    + rewrite !filter_cons, Hh.
      destruct (decide (attr x = a)); cbn [length]; [f_equal |];
        exact (IH _ i Hh').
Qed.

(** Writing chemistry fields does not change what the links count. *)
Lemma squad_mates_written (squad : list Player) (k i : nat) :
  squad_mates attr (chemistry_written squad k) i = squad_mates attr squad i.
Proof.
  unfold squad_mates, chemistry_written.
  rewrite list_lookup_imap.
  destruct (squad !! i) as [player|] eqn:Hl; [| reflexivity].
  cbn [fmap option_fmap option_map]. f_equal.
  set (g := λ (j : nat) (p : Player),
              if decide (j < k)%nat
              then set_chemistry p (chemistry_spec squad j) else p).
  assert (Hg : ∀ j p, attr (g j p) = attr p).
  { intros j p. unfold g.
    destruct (decide (j < k)%nat); [apply attr_kept | reflexivity]. }
  change (if decide (i < k)%nat
          then set_chemistry player (chemistry_spec squad i) else player)
    with (g i player).
  generalize (Hg i player). generalize (attr (g i player)).
  intros a ->. apply filter_attr_delete_imap, Hg.
Qed.

End Links.

Lemma chemistry_spec_ten (squad : list Player) (i : nat) :
  chemistry_spec squad i = 10.
Proof.
  unfold chemistry_spec.
  pose proof (squad_mates_nonneg league squad i).
  pose proof (squad_mates_nonneg nation squad i).
  pose proof (squad_mates_nonneg club squad i).
  lia.
Qed.

Lemma chemistry_spec_written (squad : list Player) (k i : nat) :
  chemistry_spec (chemistry_written squad k) i = chemistry_spec squad i.
Proof.
  unfold chemistry_spec.
  rewrite !squad_mates_written by (intros; reflexivity). reflexivity.
Qed.

(** One round of the loop takes the state after [k] rounds to the state
    after [k + 1]. *)
Lemma chemistry_step_written (squad : list Player) (k : nat) :
  (k < length squad)%nat →
  chemistry_step (chemistry_written squad k, chemistry_partial squad k) k
  = (chemistry_written squad (S k), chemistry_partial squad (S k)).
Proof.
  intros Hk. unfold chemistry_step.
  destruct (lookup_lt_is_Some_2 squad k Hk) as [p Hp].
  assert (Hw : chemistry_written squad k !! k = Some p).
  { unfold chemistry_written. rewrite list_lookup_imap, Hp. simpl.
    rewrite decide_False by lia. reflexivity. }
  rewrite Hw.
  rewrite !(count_links_mates _ _ _ _ Hw).
  assert (Hc : Z.min (0 + 10
                      + Z.min (squad_mates league (chemistry_written squad k) k * 2) 8
                      + Z.min (squad_mates nation (chemistry_written squad k) k * 1) 6
                      + Z.min (squad_mates club (chemistry_written squad k) k * 3) 12)
                     10
               = chemistry_spec squad k).
  { rewrite <- (chemistry_spec_written squad k k). unfold chemistry_spec.
    f_equal. lia. }
  rewrite Hc. f_equal.
  - apply list_eq. intros j. unfold chemistry_written.
    destruct (decide (k = j)) as [<- | Hne].
    + rewrite list_lookup_insert_eq by (rewrite length_imap; exact Hk).
      rewrite list_lookup_imap, Hp. simpl.
      rewrite decide_True by lia. reflexivity.
    + rewrite list_lookup_insert_ne by exact Hne.
      rewrite !list_lookup_imap. destruct (squad !! j) as [q|]; [| reflexivity].
      simpl. destruct (decide (j < k)%nat), (decide (j < S k)%nat);
        try reflexivity; lia.
  - unfold chemistry_partial. rewrite seq_S, fmap_app, foldr_app. simpl.
    generalize (chemistry_spec squad <$> seq 0 k) as l.
    intros l. rewrite Z.add_0_r.
    induction l as [|z l IH]; simpl; [lia |].
    assert (∀ (a : Z) (l : list Z), foldr Z.add a l = a + foldr Z.add 0 l) as Hf.
    { intros a l'. induction l' as [|z' l' IH']; simpl; lia. }
    rewrite (Hf (chemistry_spec squad k)). rewrite Hf in IH. lia.
Qed.

Lemma chemistry_loop_written (squad : list Player) (k : nat) :
  (k ≤ length squad)%nat →
  foldl chemistry_step (squad, 0) (seq 0 k)
  = (chemistry_written squad k, chemistry_partial squad k).
Proof.
  induction k as [|k IH]; intros Hk.
  - simpl. f_equal. unfold chemistry_written.
    apply list_eq. intros j. rewrite list_lookup_imap.
    destruct (squad !! j); reflexivity.
  - rewrite seq_S, foldl_app, IH by lia. simpl.
    apply chemistry_step_written. lia.
Qed.

Lemma chemistry_partial_ten (squad : list Player) (k : nat) :
  chemistry_partial squad k = 10 * Z.of_nat k.
Proof.
  unfold chemistry_partial. generalize 0%nat as s.
  induction k as [|k IH]; intros s; [reflexivity |].
  cbn [seq]. rewrite fmap_cons. cbn [foldr].
  rewrite IH, chemistry_spec_ten. lia.
Qed.

Lemma calculateChemistry_written (squad : list Player)
    (parsedReqs : ParsedReqs) :
  calculateChemistry squad parsedReqs
  = (chemistry_written squad (length squad),
     chemistry_partial squad (length squad)).
Proof.
  unfold calculateChemistry.
  rewrite chemistry_loop_written by lia.
  rewrite Math_round_integer. reflexivity.
Qed.

(** C3: [calculateChemistry] gives the member in place [i] the chemistry
    [min (10 + min (2 * league mates) 8 + min (nation mates) 6
          + min (3 * club mates) 12) 10], where the mates are the other
    members of the squad with the same league, nation or club, and changes
    nothing else; the total is the sum of these values; every value lies in
    [0, 10] and the total in [0, 10 * N]. *)
Theorem calculateChemistry_clamped_sum (squad : list Player)
    (parsedReqs : ParsedReqs) :
  let players := (calculateChemistry squad parsedReqs).1 in
  let total := (calculateChemistry squad parsedReqs).2 in
  length players = length squad
  ∧ (∀ (i : nat) (p : Player),
       squad !! i = Some p →
       players !! i = Some (set_chemistry p (chemistry_spec squad i)))
  ∧ total = foldr Z.add 0 (chemistry <$> players)
  ∧ (∀ p : Player, p ∈ players → 0 <= chemistry p <= 10)
  ∧ 0 <= total <= 10 * Z.of_nat (length squad).
Proof.
  rewrite calculateChemistry_written. cbn [fst snd].
  assert (Hlook : ∀ (i : nat) (p : Player),
            squad !! i = Some p →
            chemistry_written squad (length squad) !! i
            = Some (set_chemistry p (chemistry_spec squad i))).
  { intros i p Hp. unfold chemistry_written.
    rewrite list_lookup_imap, Hp. simpl.
    rewrite decide_True by (apply lookup_lt_Some in Hp; exact Hp).
    reflexivity. }
  split; [apply length_imap |].
  split; [exact Hlook |].
  split; [| split].
  - unfold chemistry_partial. f_equal. apply list_eq. intros j.
    rewrite !list_lookup_fmap.
    destruct (squad !! j) as [p|] eqn:Hp.
    + rewrite (Hlook j p Hp).
      rewrite lookup_seq_lt by (apply lookup_lt_Some in Hp; exact Hp).
      reflexivity.
    + apply lookup_ge_None in Hp as Hge.
      rewrite lookup_seq_ge by exact Hge.
      rewrite (proj2 (lookup_ge_None _ j)); [reflexivity |].
      unfold chemistry_written. rewrite length_imap. exact Hge.
  - intros p [i Hi]%list_elem_of_lookup.
    destruct (squad !! i) as [q|] eqn:Hq.
    + rewrite (Hlook i q Hq) in Hi. inversion Hi; subst p.
      cbn [chemistry set_chemistry]. rewrite chemistry_spec_ten. lia.
    + apply lookup_ge_None in Hq. apply lookup_lt_Some in Hi.
      unfold chemistry_written in Hi. rewrite length_imap in Hi. lia.
  - rewrite chemistry_partial_ten. lia.
Qed.

Lemma calculateChemistry_clamped_sum_witness :
  let squad := [card "GK" 80 "gold"; card "ST" 82 "gold"; card "CM" 78 "gold"] in
  let parsedReqs := parseRequirements (minimal_object 3 30) in
  (calculateChemistry squad parsedReqs).1 !! 1%nat
  = Some (set_chemistry (card "ST" 82 "gold") (chemistry_spec squad 1)).
Proof.
  intros squad parsedReqs.
  destruct (calculateChemistry_clamped_sum squad parsedReqs)
    as (_ & H & _).
  apply (H 1%nat (card "ST" 82 "gold")). reflexivity.
Defined.

(** ** The slot loop *)

Lemma selectOptimalFormation_433 (parsedReqs : ParsedReqs) :
  selectOptimalFormation parsedReqs
  = {| formation_positions := labels_433; chemistryBonus := 5 |}.
Proof. vm_compute. reflexivity. Qed.

(** No label of the formation is the empty string, so [|| 'SUB'] only
    fires past the last label. *)
Lemma slot_label (i : nat) :
  Js.or_str (labels_433 !! i) "SUB" = default "SUB" (labels_433 !! i).
Proof.
  unfold labels_433.
  do 11 (destruct i as [|i]; [reflexivity |]). reflexivity.
Qed.

Section SlotLoop.

Variable f : Formation.
Variable parsedReqs : ParsedReqs.

(** While a slot is open the required rating is a finite number. *)
Lemma calculateRequiredRating_finite (currentSquad : list Player) :
  Z.of_nat (length currentSquad) < squadSize parsedReqs →
  ∃ r : Z, calculateRequiredRating parsedReqs currentSquad = Js.Fin r.
Proof.
  intros Hopen. unfold calculateRequiredRating.
  destruct (decide (length currentSquad = 0%nat)); [eauto |].
  unfold Js.div.
  destruct (Z.eqb_spec (squadSize parsedReqs - Z.of_nat (length currentSquad)) 0);
    [lia |].
  simpl. eauto.
Qed.

Lemma findOptimalPlayer_open (pos : string) (currentSquad : list Player) :
  Z.of_nat (length currentSquad) < squadSize parsedReqs →
  ∃ player : Player,
    findOptimalPlayer pos parsedReqs currentSquad = Some player
    ∧ position player = pos.
Proof.
  intros Hopen.
  destruct (calculateRequiredRating_finite currentSquad Hopen) as [r Hr].
  unfold findOptimalPlayer. rewrite Hr. simpl. eauto.
Qed.

(** The loop from [start] for [count] rounds, entered with [start] players
    placed and at least [count] slots open: it ends, appends one player per
    round with the label of its slot, and touches no other field. *)
Lemma fill_slots_appends (count : nat) :
  ∀ (solution : Solution) (start : nat),
    length (squad solution) = start →
    (start + count ≤ Z.to_nat (squadSize parsedReqs))%nat →
    ∃ final : Solution,
      fill_slots f parsedReqs solution start count = Some final
      ∧ length (squad final) = (start + count)%nat
      ∧ (∀ (i : nat) (p : Player),
           squad final !! i = Some p →
           (i < start)%nat ∧ squad solution !! i = Some p
           ∨ (start ≤ i)%nat
             ∧ position p = Js.or_str (formation_positions f !! i) "SUB")
      ∧ strategy final = strategy solution
      ∧ warnings final = warnings solution
      ∧ formation final = formation solution.
Proof.
  induction count as [|count IH]; intros solution start Hlen Hroom.
  - exists solution. cbn [fill_slots].
    repeat split; try reflexivity; [lia |].
    intros i p Hp. left. split; [| exact Hp].
    apply lookup_lt_Some in Hp. lia.
  - cbn [fill_slots]. unfold fill_slot.
    destruct (findOptimalPlayer_open
                (Js.or_str (formation_positions f !! start) "SUB")
                (squad solution) ltac:(lia))
      as (player & Hplayer & Hpos).
    rewrite Hplayer. cbn [mbind option_bind].
    destruct (IH (push_player solution player) (S start)) as
      (final & Hrun & Hfinal & Hlabels & Hs & Hw & Hf).
    { cbn [squad push_player]. rewrite length_app. simpl. lia. }
    { lia. }
    exists final. rewrite Hrun.
    repeat split; try assumption; [lia |].
    intros i p Hp. destruct (Hlabels i p Hp) as [[Hlt Hold] | [Hge Hlab]].
    + cbn [squad push_player] in Hold.
      destruct (decide (i < start)%nat) as [Hi | Hi].
      * left. split; [exact Hi |].
        rewrite lookup_app_l in Hold by lia. exact Hold.
      * right. assert (i = start) as -> by lia. split; [lia |].
        rewrite lookup_app_r in Hold by lia.
        rewrite Hlen, Nat.sub_diag in Hold. simpl in Hold.
        inversion Hold; subst p. exact Hpos.
    + right. split; [lia | exact Hlab].
Qed.

End SlotLoop.

(** What [generateSolution] returns, in one statement: it returns, with one
    player per slot, each carrying the label of its slot and chemistry 10,
    and with the totals of the two aggregations. *)
Lemma generateSolution_built (parsedReqs : ParsedReqs) :
  ∃ solution : Solution,
    generateSolution parsedReqs = Some solution
    ∧ length (squad solution) = Z.to_nat (squadSize parsedReqs)
    ∧ (∀ (i : nat) (p : Player),
         squad solution !! i = Some p →
         position p = default "SUB" (labels_433 !! i) ∧ chemistry p = 10)
    ∧ totalChemistry solution = 10 * Z.of_nat (length (squad solution))
    ∧ totalRating solution = calculateSquadRating (squad solution)
    ∧ strategy solution = []
    ∧ warnings solution = []
    ∧ formation solution = Some (selectOptimalFormation parsedReqs).
Proof.
  unfold generateSolution.
  set (initial := set_formation _ _).
  destruct (fill_slots_appends (selectOptimalFormation parsedReqs) parsedReqs
              (Z.to_nat (squadSize parsedReqs)) initial 0%nat
              eq_refl ltac:(lia))
    as (filled & Hrun & Hlen & Hlabels & Hs & Hw & Hf).
  rewrite Hrun. cbn [mbind option_bind].
  rewrite calculateChemistry_written.
  eexists; split; [reflexivity |].
  cbn [squad set_totals totalChemistry totalRating strategy warnings formation].
  assert (Hwritten : length (chemistry_written (squad filled)
                                (length (squad filled)))
                     = length (squad filled)) by apply length_imap.
  rewrite Hwritten.
  split; [rewrite Hlen; reflexivity |].
  split; [| split; [apply chemistry_partial_ten |]].
  - intros i p Hp. unfold chemistry_written in Hp.
    apply list_lookup_imap_Some in Hp as (q & Hq & ->).
    apply lookup_lt_Some in Hq as Hi.
    rewrite decide_True by exact Hi.
    split; [| apply chemistry_spec_ten].
    destruct (Hlabels i q Hq) as [[Hlt _] | [_ Hlab]]; [lia |].
    rewrite selectOptimalFormation_433 in Hlab.
    cbn [formation_positions] in Hlab. rewrite slot_label in Hlab.
    exact Hlab.
  - repeat split; assumption.
Qed.

(** ** Squad construction *)

(** C6: for a squad size [N > 0] the construction returns, its squad has
    exactly [N] players, the player in slot [i] carries the [i]-th label of
    the formation or ['SUB'] past the eleventh, and the squad-size check of
    [checkRequirements] passes. *)
Theorem generateSolution_squad_length (parsedReqs : ParsedReqs) :
  0 < squadSize parsedReqs →
  ∃ solution : Solution,
    generateSolution parsedReqs = Some solution
    ∧ Z.of_nat (length (squad solution)) = squadSize parsedReqs
    ∧ (∀ (i : nat) (p : Player),
         squad solution !! i = Some p →
         position p = default "SUB" (labels_433 !! i))
    ∧ check_squadSize (checks (checkRequirements solution parsedReqs)) = true.
Proof.
  intros Hpos.
  destruct (generateSolution_built parsedReqs)
    as (solution & Hgen & Hlen & Hplayers & _).
  exists solution.
  assert (Hsize : Z.of_nat (length (squad solution)) = squadSize parsedReqs)
    by lia.
  repeat split; try assumption.
  - intros i p Hp. apply (Hplayers i p Hp).
  - cbn [checkRequirements checks check_squadSize].
    apply bool_decide_eq_true. exact Hsize.
Qed.

Lemma generateSolution_squad_length_witness :
  ∃ solution : Solution,
    generateSolution (parseRequirements (minimal_object 13 95)) = Some solution
    ∧ Z.of_nat (length (squad solution)) = 13
    ∧ (∀ (i : nat) (p : Player),
         squad solution !! i = Some p →
         position p = default "SUB" (labels_433 !! i))
    ∧ check_squadSize
        (checks (checkRequirements solution
                   (parseRequirements (minimal_object 13 95)))) = true.
Proof.
  apply (generateSolution_squad_length
           (parseRequirements (minimal_object 13 95))).
  reflexivity.
Defined.

(** C4: every player of a built squad has chemistry exactly 10, the total
    chemistry is 10 times the squad length, and for a squad of 11 the
    chemistry check passes whenever the required minimum is at most 100. *)
Theorem generateSolution_chemistry_ten (parsedReqs : ParsedReqs) :
  ∃ solution : Solution,
    generateSolution parsedReqs = Some solution
    ∧ (∀ p : Player, p ∈ squad solution → chemistry p = 10)
    ∧ totalChemistry solution = 10 * Z.of_nat (length (squad solution))
    ∧ (length (squad solution) = 11%nat →
       minChemistry parsedReqs <= 100 →
       check_chemistry (checks (checkRequirements solution parsedReqs)) = true).
Proof.
  destruct (generateSolution_built parsedReqs)
    as (solution & Hgen & _ & Hplayers & Htotal & _).
  exists solution. repeat split; try assumption.
  - intros p [i Hi]%list_elem_of_lookup. apply (Hplayers i p Hi).
  - intros Heleven Hmin.
    cbn [checkRequirements checks check_chemistry].
    rewrite Htotal, Heleven. apply Z.leb_le. lia.
Qed.

Lemma generateSolution_chemistry_ten_witness :
  ∃ solution : Solution,
    generateSolution (parseRequirements (minimal_object 11 95)) = Some solution
    ∧ check_chemistry
        (checks (checkRequirements solution
                   (parseRequirements (minimal_object 11 95)))) = true.
Proof.
  destruct (generateSolution_chemistry_ten
              (parseRequirements (minimal_object 11 95)))
    as (solution & Hgen & _ & _ & Hcheck).
  exists solution. split; [exact Hgen |].
  apply Hcheck; [| vm_compute; discriminate].
  destruct (generateSolution_built (parseRequirements (minimal_object 11 95)))
    as (solution' & Hgen' & Hlen & _).
  rewrite Hgen in Hgen'. injection Hgen' as <-. exact Hlen.
Defined.

(** ** The entry points *)

(** C1, as the code has it: for [{ players: 11, chemistry: 100 }] the solve
    entry point completes with a solution that satisfies all four
    requirement checks, and the object it returns has no [success] key:
    reading [success] gives [undefined], not [true]. *)
Theorem solve_result_lacks_success_field :
  ∃ solution : Solution,
    solveSBCRequirements (JsObject (minimal_object 11 100))
    = Some (Normal (SolutionResult solution))
    ∧ success (checkRequirements solution
                 (parseRequirements (minimal_object 11 100))) = true
    ∧ result_success (SolutionResult solution) = None
    ∧ "success" ∉ result_keys (SolutionResult solution).
Proof.
  eexists. split; [vm_compute; reflexivity |].
  split; [vm_compute; reflexivity |].
  split; [reflexivity |].
  cbn [result_keys]. rewrite !not_elem_of_cons.
  repeat split; try discriminate. apply not_elem_of_nil.
Qed.

(** Whatever the input, a solution path never yields a [success] key and a
    failure path always yields [success: false]. *)
Lemma solve_success_field (input : JsArg) (result : SolveResult) :
  solveSBCRequirements input = Some (Normal result) →
  match result with
  | SolutionResult _ => result_success result = None
  | ErrorResult _ _ => result_success result = Some false
  end.
Proof.
  unfold solveSBCRequirements, solve_try. intros H.
  destruct (negb (validateRequirements input)).
  - cbn in H. inversion H. reflexivity.
  - destruct input; cbn in H; try (inversion H; reflexivity).
    destruct (generateSolution _); cbn in H; inversion H. reflexivity.
Qed.

Lemma commonSBCs_outside (sbcType : string) :
  sbcType ∉ preset_names → commonSBCs !! sbcType = None.
Proof.
  unfold preset_names, commonSBCs. intros Hout.
  rewrite !not_elem_of_cons in Hout.
  destruct Hout as (? & ? & ? & ? & ? & _).
  rewrite !lookup_insert_ne by congruence. apply lookup_empty.
Qed.

Lemma validateRequirements_object (input : JsArg) :
  validateRequirements input = true →
  ∃ o : RawRequirements,
    input = JsObject o ∧ is_Some (raw_players o) ∧ is_Some (raw_chemistry o).
Proof.
  destruct input as [| | b | n | s | | l | o]; unfold validateRequirements;
    cbn [truthy typeof]; try discriminate.
  - destruct (negb b); discriminate.
  - destruct (negb (negb (n =? 0))); discriminate.
  - destruct (negb (negb (bool_decide (s = "")))); discriminate.
  - rewrite (bool_decide_eq_true_2 _ (eq_refl "object")).
    cbn [negb orb forallb key_in]. unfold has_key.
    rewrite decide_True by reflexivity.
    rewrite decide_False by discriminate.
    rewrite decide_True by reflexivity.
    rewrite !andb_true_iff, !bool_decide_eq_true.
    intros (? & ? & _). eauto.
Qed.

Lemma solveSBCRequirements_returns (input : JsArg) :
  ∃ result : SolveResult, solveSBCRequirements input = Some (Normal result).
Proof.
  unfold solveSBCRequirements, solve_try.
  destruct (validateRequirements input) eqn:Hvalid; cbn [negb].
  - destruct (validateRequirements_object input Hvalid) as (o & -> & _).
    destruct (generateSolution_built (parseRequirements o))
      as (solution & Hgen & _).
    rewrite Hgen. cbn. eauto.
  - cbn. eauto.
Qed.

Lemma inherited_member_own (key : string) :
  Js.inherited_name key = false → inherited_member key = None.
Proof.
  unfold Js.inherited_name, Js.prototype_names, inherited_member.
  intros Hown%bool_decide_eq_false. rewrite not_elem_of_cons in Hown.
  destruct Hown as [Hproto Hfun].
  rewrite decide_False by exact Hproto.
  rewrite decide_False by exact Hfun. reflexivity.
Qed.

(** Whatever an object literal inherits is rejected by validation. *)
Lemma inherited_member_invalid (key : string) (member : JsArg) :
  inherited_member key = Some member →
  solveSBCRequirements member
  = Some (Normal (ErrorResult "Invalid SBC requirements provided" false)).
Proof.
  unfold inherited_member. intros Hmember.
  destruct (decide (key = "__proto__"));
    [| destruct (decide (key ∈ Js.prototype_functions)); [| discriminate]];
    injection Hmember as <-; reflexivity.
Qed.

(** What the two entry points return.  [solveSBCRequirements] completes
    normally with a result object on every modelled input, and on an input
    that is not an object or lacks the [players] or the [chemistry] key the
    result is the invalid-requirements error; [quickSolve] completes
    normally on every string: a name that is neither a preset nor a member
    of [Object.prototype] gives the unknown-type error, and a name that is
    such a member gives the invalid-requirements error. *)
Lemma entry_points_results :
  (∀ input : JsArg,
     ∃ result : SolveResult,
       solveSBCRequirements input = Some (Normal result))
  ∧ (∀ input : JsArg,
       match input with
       | JsObject o => raw_players o = None ∨ raw_chemistry o = None
       | _ => True
       end →
       solveSBCRequirements input
       = Some (Normal (ErrorResult "Invalid SBC requirements provided" false)))
  ∧ (∀ sbcType : string,
       ∃ result : SolveResult, quickSolve sbcType = Some (Normal result))
  ∧ (∀ sbcType : string,
       sbcType ∉ preset_names →
       Js.inherited_name sbcType = false →
       quickSolve sbcType
       = Some (Normal (ErrorResult ("Unknown SBC type: " +:+ sbcType) false)))
  ∧ (∀ sbcType : string,
       Js.inherited_name sbcType = true →
       quickSolve sbcType
       = Some (Normal (ErrorResult "Invalid SBC requirements provided" false))).
Proof.
  split; [exact solveSBCRequirements_returns |].
  split; [| split; [| split]].
  - intros input Hbad.
    assert (Hvalid : validateRequirements input = false).
    { destruct (validateRequirements input) eqn:Hv; [| reflexivity].
      destruct (validateRequirements_object input Hv)
        as (o & -> & [p Hp] & [c Hc]).
      destruct Hbad; congruence. }
    unfold solveSBCRequirements, solve_try. rewrite Hvalid. reflexivity.
  - intros sbcType. unfold quickSolve.
    destruct (commonSBCs !! sbcType) as [requirements|];
      [apply solveSBCRequirements_returns |].
    destruct (inherited_member sbcType) as [member|]; [| eauto].
    apply solveSBCRequirements_returns.
  - intros sbcType Hout Hown. unfold quickSolve.
    rewrite (commonSBCs_outside sbcType Hout).
    rewrite (inherited_member_own sbcType Hown). reflexivity.
  - intros sbcType Hin. unfold quickSolve.
    assert (Hout : sbcType ∉ preset_names).
    { apply bool_decide_eq_true in Hin. intros Hpreset.
      unfold Js.prototype_names, Js.prototype_functions in Hin.
      unfold preset_names in Hpreset.
      rewrite !elem_of_cons in Hin. rewrite !elem_of_cons in Hpreset.
      destruct Hin as [-> | [-> | [-> | [-> | [-> | [-> | [-> | [-> | [->
                       | [-> | [-> | [-> | Hin]]]]]]]]]]]];
        [| | | | | | | | | | | | inversion Hin];
        destruct Hpreset as [? | [? | [? | [? | [? | Hnil]]]]];
        try discriminate; inversion Hnil. }
    rewrite (commonSBCs_outside sbcType Hout).
    destruct (inherited_member sbcType) as [member|] eqn:Hmember.
    + apply (inherited_member_invalid sbcType member Hmember).
    + exfalso. apply bool_decide_eq_true in Hin.
      unfold inherited_member in Hmember.
      unfold Js.prototype_names in Hin. rewrite elem_of_cons in Hin.
      destruct (decide (sbcType = "__proto__")); [discriminate |].
      destruct (decide (sbcType ∈ Js.prototype_functions)); [discriminate |].
      destruct Hin; contradiction.
Qed.

(** C7, as the code has it: ['toString'] is no preset, yet [quickSolve]
    does not answer with the unknown-type error.  [commonSBCs['toString']]
    is the function inherited from [Object.prototype], which is truthy, so
    the guard [!requirements] does not fire and the function goes on to
    [solveSBCRequirements], whose validation rejects it: the result is the
    invalid-requirements error.  The same happens for ['constructor'] and
    for ['__proto__']. *)
Theorem quickSolve_inherited_name_not_unknown :
  ("toString" ∉ preset_names)
  ∧ quickSolve "toString"
    = Some (Normal (ErrorResult "Invalid SBC requirements provided" false))
  ∧ quickSolve "toString"
    ≠ Some (Normal (ErrorResult ("Unknown SBC type: " +:+ "toString") false))
  ∧ quickSolve "constructor"
    = Some (Normal (ErrorResult "Invalid SBC requirements provided" false))
  ∧ quickSolve "__proto__"
    = Some (Normal (ErrorResult "Invalid SBC requirements provided" false)).
Proof.
  split.
  { unfold preset_names. rewrite !not_elem_of_cons.
    repeat split; try discriminate. apply not_elem_of_nil. }
  repeat split; try (vm_compute; reflexivity).
  vm_compute. discriminate.
Qed.

(** ** Fields that are parsed and never read *)

Section UnreadFields.

Variable parsedReqs : ParsedReqs.

(** Candidate selection reads the squad size, the minimum rating and the
    four constraint lists, and nothing else of the record. *)
Lemma findOptimalPlayer_blank (pos : string) (currentSquad : list Player) :
  findOptimalPlayer pos parsedReqs currentSquad
  = findOptimalPlayer pos (blank_unread parsedReqs) currentSquad.
Proof. reflexivity. Qed.

(** The requirement check reads the four thresholds only. *)
Lemma checkRequirements_blank (solution : Solution) :
  checkRequirements solution parsedReqs
  = checkRequirements solution (blank_unread parsedReqs).
Proof. reflexivity. Qed.

Lemma fill_slots_blank (f : Formation) (count : nat) :
  ∀ (solution : Solution) (start : nat),
    fill_slots f parsedReqs solution start count
    = fill_slots f (blank_unread parsedReqs) solution start count.
Proof.
  induction count as [|count IH]; intros solution start; [reflexivity |].
  cbn [fill_slots].
  change (fill_slot f (blank_unread parsedReqs) solution start)
    with (fill_slot f parsedReqs solution start).
  destruct (fill_slot f parsedReqs solution start) as [next|];
    [| reflexivity].
  cbn [mbind option_bind]. apply IH.
Qed.

Lemma generateSolution_blank :
  generateSolution parsedReqs = generateSolution (blank_unread parsedReqs).
Proof.
  unfold generateSolution.
  change (selectOptimalFormation (blank_unread parsedReqs))
    with (selectOptimalFormation parsedReqs).
  rewrite (fill_slots_blank (selectOptimalFormation parsedReqs)).
  reflexivity.
Qed.

Lemma optimizeSolution_blank (solution : Solution) :
  optimizeSolution solution parsedReqs
  = optimizeSolution solution (blank_unread parsedReqs).
Proof. reflexivity. Qed.

End UnreadFields.

Lemma solve_try_blank (o : RawRequirements) :
  solve_try (JsObject o)
  = if negb (validateRequirements (JsObject o)) then
      Some (Throw "Invalid SBC requirements provided")
    else
      solution ← generateSolution (blank_unread (parseRequirements o));
      Some (Normal (SolutionResult
                      (optimizeSolution solution
                         (blank_unread (parseRequirements o))))).
Proof.
  unfold solve_try. rewrite <- generateSolution_blank. reflexivity.
Qed.

(** C10: two requirements objects that agree on [players], [chemistry],
    [rating], [maxCost], [leagues], [nations], [clubs] and [rarities], and
    differ at most in the five distribution limits and the positions map,
    get identical results from the solve entry point. *)
Theorem solve_ignores_unread_fields (r1 r2 : RawRequirements) :
  raw_players r1 = raw_players r2 →
  raw_chemistry r1 = raw_chemistry r2 →
  raw_rating r1 = raw_rating r2 →
  raw_maxCost r1 = raw_maxCost r2 →
  raw_leagues r1 = raw_leagues r2 →
  raw_nations r1 = raw_nations r2 →
  raw_clubs r1 = raw_clubs r2 →
  raw_rarities r1 = raw_rarities r2 →
  solveSBCRequirements (JsObject r1) = solveSBCRequirements (JsObject r2).
Proof.
  intros Hp Hc Hr Hm Hl Hn Hcl Hra.
  unfold solveSBCRequirements. rewrite !solve_try_blank.
  assert (Hvalid : validateRequirements (JsObject r1)
                   = validateRequirements (JsObject r2)).
  { unfold validateRequirements. cbn [truthy typeof forallb key_in].
    unfold has_key.
    rewrite !decide_True by reflexivity.
    rewrite !decide_False by discriminate.
    rewrite !decide_True by reflexivity.
    rewrite Hp, Hc. reflexivity. }
  assert (Hblank : blank_unread (parseRequirements r1)
                   = blank_unread (parseRequirements r2)).
  { unfold blank_unread, parseRequirements.
    cbn [squadSize minChemistry minRating maxCost constraints
         leagues nations clubs rarities].
    rewrite Hp, Hc, Hr, Hm, Hl, Hn, Hcl, Hra. reflexivity. }
  rewrite Hvalid, Hblank. reflexivity.
Qed.

Lemma solve_ignores_unread_fields_witness :
  solveSBCRequirements (JsObject (minimal_object 11 95))
  = solveSBCRequirements (JsObject limited_object).
Proof.
  apply solve_ignores_unread_fields; reflexivity.
Defined.

(** The two objects of the witness do not normalize to the same record. *)
Example limited_object_parsed_differs :
  maxSameClub (special (parseRequirements limited_object)) = Some 1
  ∧ maxSameClub (special (parseRequirements (minimal_object 11 95))) = None.
Proof. split; reflexivity. Qed.

(** * Further properties of the solver *)

(** ** The counter objects of league and nation selection *)

Section Counters.

Variable attr : Player → string.

Lemma counts_get_set (counts : list (string * Z)) (key k : string) (v : Z) :
  counts_get (counts_set counts key v) k
  = if decide (key = k) then Some v else counts_get counts k.
Proof.
  induction counts as [|[k0 n0] counts IH]; cbn [counts_set counts_get].
  - destruct (decide (key = k)); reflexivity.
  - destruct (decide (k0 = key)) as [-> | Hne]; cbn [counts_get].
    + destruct (decide (key = k)); reflexivity.
    + destruct (decide (k0 = k)) as [-> | Hne'].
      * rewrite decide_False by congruence. reflexivity.
      * exact IH.
Qed.

Lemma counts_keys_get (counts : list (string * Z)) (k : string) :
  k ∈ counts.*1 ↔ is_Some (counts_get counts k).
Proof.
  induction counts as [|[k0 n0] counts IH]; cbn [counts_get].
  - rewrite fmap_nil. split; [intros H; inversion H | intros [x Hx]; discriminate].
  - rewrite fmap_cons, elem_of_cons. cbn [fst].
    destruct (decide (k0 = k)) as [-> | Hne].
    + split; [eauto | left; reflexivity].
    + rewrite <- IH. split; [intros [-> | H]; [congruence | exact H] | right; assumption].
Qed.

Lemma count_by_snoc (squad : list Player) (player : Player) :
  count_by attr (squad ++ [player])
  = counts_set (count_by attr squad) (attr player)
      (Js.or_num (counts_get (count_by attr squad) (attr player)) 0 + 1).
Proof. unfold count_by. rewrite foldl_app. reflexivity. Qed.

Lemma occurrences_snoc (squad : list Player) (player : Player) (k : string) :
  occurrences attr (squad ++ [player]) k
  = occurrences attr squad k + (if decide (attr player = k) then 1 else 0).
Proof.
  unfold occurrences. rewrite filter_app, length_app.
  rewrite filter_cons, filter_nil.
  destruct (decide (attr player = k)); simpl; lia.
Qed.

Lemma occurrences_nonneg (squad : list Player) (k : string) :
  0 <= occurrences attr squad k.
Proof. unfold occurrences. lia. Qed.

(** The counter holds, for each value, the number of members that have it,
    and has no key for a value that does not occur. *)
Lemma count_by_get (squad : list Player) (k : string) :
  counts_get (count_by attr squad) k
  = if decide (occurrences attr squad k = 0) then None
    else Some (occurrences attr squad k).
Proof.
  induction squad as [|player squad IH] using rev_ind; [reflexivity |].
  rewrite count_by_snoc, counts_get_set, occurrences_snoc.
  pose proof (occurrences_nonneg squad k) as Hk.
  destruct (decide (attr player = k)) as [Heq | Hne].
  - rewrite Heq, IH.
    destruct (decide (occurrences attr squad k = 0)) as [Hz | Hz];
      cbn [Js.or_num].
    + rewrite Hz. rewrite decide_False by lia. reflexivity.
    + destruct (Z.eqb_spec (occurrences attr squad k) 0); [lia |].
      rewrite decide_False by lia. reflexivity.
  - rewrite IH, Z.add_0_r. reflexivity.
Qed.

Lemma occurrences_member (squad : list Player) (k : string) :
  0 < occurrences attr squad k ↔ ∃ p, p ∈ squad ∧ attr p = k.
Proof.
  unfold occurrences. split.
  - intros Hpos.
    destruct (filter (λ p, attr p = k) squad) as [|p rest] eqn:Hf;
      [simpl in Hpos; lia |].
    assert (Hin : p ∈ filter (λ p, attr p = k) squad)
      by (rewrite Hf; left).
    apply list_elem_of_filter in Hin as [Hp Hin]. eauto.
  - intros (p & Hin & Hp).
    assert (Hin' : p ∈ filter (λ p, attr p = k) squad)
      by (apply list_elem_of_filter; split; assumption).
    destruct (filter (λ p, attr p = k) squad); [inversion Hin' | simpl; lia].
Qed.

(** [Object.keys] lists the keys that were created, each once: the order
    differs from the order of creation, the members do not. *)
Lemma own_keys_member (counts : list (string * Z)) (k : string) :
  k ∈ own_keys counts ↔ k ∈ counts.*1.
Proof.
  unfold own_keys. rewrite elem_of_app.
  rewrite list_elem_of_filter.
  rewrite (merge_sort_Permutation index_le).
  rewrite list_elem_of_fmap.
  split.
  - intros [([n k'] & -> & Hin) | [_ Hin]]; [| exact Hin].
    apply list_elem_of_omap in Hin as (k0 & Hk0 & Hsome).
    destruct (Js.array_index k0); [| discriminate].
    injection Hsome as _ <-. exact Hk0.
  - intros Hin. destruct (Js.array_index k) as [n|] eqn:Hindex.
    + left. exists (n, k). split; [reflexivity |].
      apply list_elem_of_omap. exists k. rewrite Hindex. auto.
    + right. auto.
Qed.

(** The order of [Object.keys]: ['2'] and ['10'] are array indices and come
    first, by value; ['01'] is not one and keeps its place of creation. *)
Example own_keys_order :
  own_keys [("b", 1); ("10", 1); ("2", 1); ("a", 1); ("01", 1)]
  = ["2"; "10"; "b"; "a"; "01"].
Proof. vm_compute. reflexivity. Qed.

(** The [reduce] of [most_common], run over keys of the counter from an
    arbitrary starting value: the result is the start or one of the keys,
    and no key and not the start has a larger count. *)
Lemma most_common_fold (squad : list Player) (keys : list string) :
  ∀ a : string,
    (∀ k, k ∈ keys → 0 < occurrences attr squad k) →
    let r :=
      foldl (fun a b =>
               if Js.gt_undef (counts_get (count_by attr squad) a)
                              (counts_get (count_by attr squad) b)
               then a else b) a keys in
    (r = a ∨ r ∈ keys)
    ∧ occurrences attr squad a <= occurrences attr squad r
    ∧ (∀ k, k ∈ keys → occurrences attr squad k <= occurrences attr squad r).
Proof.
  induction keys as [|b keys IH]; intros a Hkeys; cbn [foldl].
  - split; [left; reflexivity |]. split; [lia |].
    intros k Hk. inversion Hk.
  - assert (Hb : 0 < occurrences attr squad b) by (apply Hkeys; left).
    assert (Hrest : ∀ k, k ∈ keys → 0 < occurrences attr squad k)
      by (intros k Hk; apply Hkeys; right; exact Hk).
    pose proof (occurrences_nonneg squad a) as Ha.
    rewrite !count_by_get.
    rewrite (decide_False (P := occurrences attr squad b = 0)) by lia.
    destruct (decide (occurrences attr squad a = 0)) as [Hz | Hz];
      cbn [Js.gt_undef].
    + destruct (IH b Hrest) as (Hr & Hle & Hall).
      split; [right; destruct Hr as [-> | Hr]; [left | right; exact Hr] |].
      split; [lia |].
      intros k [-> | Hk]%elem_of_cons; [exact Hle | apply Hall, Hk].
    + destruct (Z.ltb_spec (occurrences attr squad b)
                           (occurrences attr squad a)) as [Hlt | Hge].
      * destruct (IH a Hrest) as (Hr & Hle & Hall).
        split; [destruct Hr as [-> | Hr]; [left; reflexivity | right; right; exact Hr] |].
        split; [exact Hle |].
        intros k [-> | Hk]%elem_of_cons; [lia | apply Hall, Hk].
      * destruct (IH b Hrest) as (Hr & Hle & Hall).
        split; [right; destruct Hr as [-> | Hr]; [left | right; exact Hr] |].
        split; [lia |].
        intros k [-> | Hk]%elem_of_cons; [exact Hle | apply Hall, Hk].
Qed.

(** On a non-empty squad the selected value is the attribute of a member,
    and no member's value occurs more often. *)
Lemma most_common_of_squad (squad : list Player) (init : string) :
  squad ≠ [] →
  let r := most_common (count_by attr squad) init in
  (∃ p, p ∈ squad ∧ attr p = r)
  ∧ (∀ p, p ∈ squad →
       occurrences attr squad (attr p) <= occurrences attr squad r).
Proof.
  intros Hne r.
  assert (Hkeys : ∀ k, k ∈ own_keys (count_by attr squad) →
                       0 < occurrences attr squad k).
  { intros k Hk. apply own_keys_member, counts_keys_get in Hk as [n Hn].
    rewrite count_by_get in Hn.
    pose proof (occurrences_nonneg squad k).
    destruct (decide (occurrences attr squad k = 0)); [discriminate | lia]. }
  destruct (most_common_fold squad (own_keys (count_by attr squad)) init
              Hkeys) as (Hr & Hinit & Hall).
  fold (most_common (count_by attr squad) init) in Hr, Hinit, Hall.
  fold r in Hr, Hinit, Hall.
  assert (Hmember : ∀ p, p ∈ squad →
                          attr p ∈ own_keys (count_by attr squad)).
  { intros p Hp. apply own_keys_member, counts_keys_get.
    rewrite count_by_get.
    assert (0 < occurrences attr squad (attr p))
      by (apply occurrences_member; eauto).
    rewrite decide_False by lia. eauto. }
  assert (Hbest : ∀ p, p ∈ squad →
            occurrences attr squad (attr p) <= occurrences attr squad r)
    by (intros p Hp; apply Hall, Hmember, Hp).
  split; [| exact Hbest].
  apply occurrences_member.
  destruct squad as [|p0 rest]; [congruence |].
  assert (0 < occurrences attr (p0 :: rest) (attr p0))
    by (apply occurrences_member; exists p0; split; [left | reflexivity]).
  specialize (Hbest p0 ltac:(left)). lia.
Qed.

End Counters.

(** Selection of league and nation in [selectOptimalLeague] and
    [selectOptimalNation]: a non-empty constraint list gives its first
    element; without a constraint an empty squad gives the reference value
    of the table, and a non-empty squad none of whose members has the name
    of a member of [Object.prototype] as its league (as its nation) gives
    a value that some member has and that no other value outnumbers. *)
Theorem league_and_nation_selection (parsedReqs : ParsedReqs)
    (currentSquad : list Player) :
  (∀ first rest,
     leagues (constraints parsedReqs) = first :: rest →
     selectOptimalLeague parsedReqs currentSquad = first)
  ∧ (∀ first rest,
       nations (constraints parsedReqs) = first :: rest →
       selectOptimalNation parsedReqs currentSquad = first)
  ∧ (leagues (constraints parsedReqs) = [] →
     (currentSquad = [] →
        selectOptimalLeague parsedReqs currentSquad = "Premier League")
     ∧ (currentSquad ≠ [] →
        (∀ p, p ∈ currentSquad → Js.inherited_name (league p) = false) →
        let chosen := selectOptimalLeague parsedReqs currentSquad in
        (∃ p, p ∈ currentSquad ∧ league p = chosen)
        ∧ (∀ p, p ∈ currentSquad →
             occurrences league currentSquad (league p)
             <= occurrences league currentSquad chosen)))
  ∧ (nations (constraints parsedReqs) = [] →
     (currentSquad = [] →
        selectOptimalNation parsedReqs currentSquad = "England")
     ∧ (currentSquad ≠ [] →
        (∀ p, p ∈ currentSquad → Js.inherited_name (nation p) = false) →
        let chosen := selectOptimalNation parsedReqs currentSquad in
        (∃ p, p ∈ currentSquad ∧ nation p = chosen)
        ∧ (∀ p, p ∈ currentSquad →
             occurrences nation currentSquad (nation p)
             <= occurrences nation currentSquad chosen))).
Proof.
  unfold selectOptimalLeague, selectOptimalNation.
  split; [intros first rest ->; reflexivity |].
  split; [intros first rest ->; reflexivity |].
  split; intros ->; (split; [intros ->; reflexivity |]); intros Hne _.
  - exact (most_common_of_squad league currentSquad _ Hne).
  - exact (most_common_of_squad nation currentSquad _ Hne).
Qed.

Lemma league_and_nation_selection_witness :
  let parsedReqs := parseRequirements (minimal_object 11 95) in
  let currentSquad :=
    [set_chemistry (card "GK" 80 "gold") 0;
     {| position := "ST"; rating := 80; league := "La Liga";
        nation := "Spain"; club := "Sevilla"; rarity := "gold";
        cost := 0; chemistry := 0 |};
     {| position := "CM"; rating := 80; league := "La Liga";
        nation := "Brazil"; club := "Sevilla"; rarity := "gold";
        cost := 0; chemistry := 0 |}] in
  let chosen := selectOptimalLeague parsedReqs currentSquad in
  (∃ p, p ∈ currentSquad ∧ league p = chosen)
  ∧ (∀ p, p ∈ currentSquad →
       occurrences league currentSquad (league p)
       <= occurrences league currentSquad chosen).
Proof.
  intros parsedReqs currentSquad.
  destruct (league_and_nation_selection parsedReqs currentSquad)
    as (_ & _ & Hleague & _).
  apply Hleague; [reflexivity | discriminate |].
  intros p Hp. subst currentSquad. rewrite !elem_of_cons in Hp.
  destruct Hp as [-> | [-> | [-> | Hp]]]; [reflexivity .. | inversion Hp].
Defined.

(** ** The build in closed form *)

Section Build.

Variable parsedReqs : ParsedReqs.

Lemma selectOptimalLeague_house (currentSquad : list Player) :
  house_squad parsedReqs currentSquad →
  selectOptimalLeague parsedReqs currentSquad = house_league parsedReqs.
Proof.
  intros Hhouse. unfold selectOptimalLeague.
  destruct (leagues (constraints parsedReqs)) eqn:E;
    [| unfold house_league; rewrite E; reflexivity].
  destruct currentSquad as [|p0 rest];
    [unfold house_league; rewrite E; reflexivity |].
  destruct (most_common_of_squad league (p0 :: rest)
              (db_leagues playerDatabase !!! 0%nat) ltac:(discriminate))
    as ((p & Hp & <-) & _).
  apply (Hhouse p Hp).
Qed.

Lemma selectOptimalNation_house (currentSquad : list Player) :
  house_squad parsedReqs currentSquad →
  selectOptimalNation parsedReqs currentSquad = house_nation parsedReqs.
Proof.
  intros Hhouse. unfold selectOptimalNation.
  destruct (nations (constraints parsedReqs)) eqn:E;
    [| unfold house_nation; rewrite E; reflexivity].
  destruct currentSquad as [|p0 rest];
    [unfold house_nation; rewrite E; reflexivity |].
  destruct (most_common_of_squad nation (p0 :: rest)
              (db_nations playerDatabase !!! 0%nat) ltac:(discriminate))
    as ((p & Hp & <-) & _).
  apply (Hhouse p Hp).
Qed.

Lemma ratings_total_house (currentSquad : list Player) :
  house_squad parsedReqs currentSquad →
  ratings_total currentSquad
  = Z.of_nat (length currentSquad) * minRating parsedReqs.
Proof.
  unfold ratings_total.
  induction currentSquad as [|p rest IH]; intros Hhouse; [reflexivity |].
  rewrite fmap_cons. cbn [foldr length].
  rewrite IH by (intros q Hq; apply Hhouse; right; exact Hq).
  destruct (Hhouse p ltac:(left)) as (-> & _). lia.
Qed.

(** On a squad of the loop's own making the required rating stays at the
    minimum rating. *)
Lemma calculateRequiredRating_house (currentSquad : list Player) :
  house_squad parsedReqs currentSquad →
  Z.of_nat (length currentSquad) < squadSize parsedReqs →
  calculateRequiredRating parsedReqs currentSquad
  = Js.Fin (minRating parsedReqs).
Proof.
  intros Hhouse Hopen. unfold calculateRequiredRating.
  destruct (decide (length currentSquad = 0%nat)) as [Hlen | Hlen];
    [reflexivity |].
  rewrite sum_ratings_total, (ratings_total_house _ Hhouse).
  set (m := minRating parsedReqs) in *.
  set (size := squadSize parsedReqs) in *.
  set (k := Z.of_nat (length currentSquad)) in *.
  unfold Js.div. destruct (Z.eqb_spec (size - k) 0) as [Hz | Hz]; [lia |].
  cbn [Js.Math_ceil_ext Js.Math_max_ext]. f_equal.
  pose proof (Math_ceil_quotient (m * size - k * m) (size - k) ltac:(lia))
    as Hc.
  cbv zeta in Hc.
  assert (Js.Math_ceil (inject_Z (m * size - k * m) / inject_Z (size - k)) = m)
    as -> by nia.
  lia.
Qed.

Lemma findOptimalPlayer_house (i : nat) (currentSquad : list Player) :
  house_squad parsedReqs currentSquad →
  Z.of_nat (length currentSquad) < squadSize parsedReqs →
  findOptimalPlayer (Js.or_str (labels_433 !! i) "SUB") parsedReqs currentSquad
  = Some (slot_player parsedReqs i).
Proof.
  intros Hhouse Hopen. unfold findOptimalPlayer.
  rewrite (calculateRequiredRating_house _ Hhouse Hopen).
  cbn [Js.finite mbind option_bind].
  rewrite (selectOptimalLeague_house _ Hhouse).
  rewrite (selectOptimalNation_house _ Hhouse).
  rewrite slot_label. reflexivity.
Qed.

Lemma slot_player_house (i : nat) :
  rating (slot_player parsedReqs i) = minRating parsedReqs
  ∧ league (slot_player parsedReqs i) = house_league parsedReqs
  ∧ nation (slot_player parsedReqs i) = house_nation parsedReqs
  ∧ club (slot_player parsedReqs i) = house_club parsedReqs.
Proof. repeat split; reflexivity. Qed.

Lemma house_squad_slots (start : nat) :
  house_squad parsedReqs (slot_player parsedReqs <$> seq 0 start).
Proof.
  intros p (i & -> & _)%list_elem_of_fmap. apply slot_player_house.
Qed.

(** The slot loop in closed form. *)
Lemma fill_slots_closed (count : nat) :
  ∀ (solution : Solution) (start : nat),
    squad solution = slot_player parsedReqs <$> seq 0 start →
    (start + count ≤ Z.to_nat (squadSize parsedReqs))%nat →
    ∃ final : Solution,
      fill_slots (selectOptimalFormation parsedReqs) parsedReqs
        solution start count = Some final
      ∧ squad final = slot_player parsedReqs <$> seq 0 (start + count)
      ∧ totalCost final
        = totalCost solution
          + costs_total (slot_player parsedReqs <$> seq start count).
Proof.
  induction count as [|count IH]; intros solution start Hsquad Hroom.
  - exists solution. cbn [fill_slots]. rewrite Nat.add_0_r.
    repeat split; [exact Hsquad |].
    unfold costs_total. simpl. lia.
  - cbn [fill_slots]. unfold fill_slot.
    rewrite selectOptimalFormation_433. cbn [formation_positions].
    rewrite findOptimalPlayer_house.
    2: { rewrite Hsquad. apply house_squad_slots. }
    2: { rewrite Hsquad, length_fmap, length_seq. lia. }
    cbn [mbind option_bind].
    rewrite <- (selectOptimalFormation_433 parsedReqs).
    destruct (IH (push_player solution (slot_player parsedReqs start))
                 (S start)) as (final & Hrun & Hfinal & Hcost).
    { cbn [squad push_player]. rewrite Hsquad, seq_S, fmap_app. reflexivity. }
    { lia. }
    exists final. split; [exact Hrun |].
    split; [rewrite Hfinal; f_equal; f_equal; lia |].
    rewrite Hcost. cbn [totalCost push_player].
    unfold costs_total. cbn [seq]. rewrite !fmap_cons. cbn [foldr]. lia.
Qed.

(** After the chemistry pass every member carries 10. *)
Lemma chemistry_written_all (squad : list Player) :
  chemistry_written squad (length squad)
  = (λ p, set_chemistry p 10) <$> squad.
Proof.
  apply list_eq. intros j. unfold chemistry_written.
  rewrite list_lookup_imap, list_lookup_fmap.
  destruct (squad !! j) as [p|] eqn:Hp; [| reflexivity].
  cbn. rewrite decide_True by (apply lookup_lt_Some in Hp; exact Hp).
  rewrite chemistry_spec_ten. reflexivity.
Qed.

End Build.

(** What [generateSolution] returns, field by field. *)
Lemma generateSolution_closed (parsedReqs : ParsedReqs) :
  let slots := slot_player parsedReqs <$> seq 0 (Z.to_nat (squadSize parsedReqs)) in
  ∃ solution : Solution,
    generateSolution parsedReqs = Some solution
    ∧ squad solution = (λ p, set_chemistry p 10) <$> slots
    ∧ totalCost solution = costs_total slots
    ∧ totalChemistry solution = 10 * Z.of_nat (Z.to_nat (squadSize parsedReqs))
    ∧ totalRating solution = calculateSquadRating (squad solution)
    ∧ strategy solution = []
    ∧ warnings solution = []
    ∧ formation solution = Some (selectOptimalFormation parsedReqs).
Proof.
  intros slots.
  destruct (generateSolution_built parsedReqs)
    as (solution & Hgen & Hlen & _ & Hchem & Hrating & Hs & Hw & Hf).
  exists solution. split; [exact Hgen |].
  assert (Hfields : squad solution = (λ p, set_chemistry p 10) <$> slots
                    ∧ totalCost solution = costs_total slots).
  { unfold generateSolution in Hgen.
    destruct (fill_slots_closed parsedReqs (Z.to_nat (squadSize parsedReqs))
                (set_formation
                   {| squad := []; totalCost := 0; totalChemistry := 0;
                      totalRating := 0; strategy := []; warnings := [];
                      formation := None |}
                   (selectOptimalFormation parsedReqs))
                0%nat eq_refl ltac:(lia))
      as (filled & Hrun & Hsquad & Hcost).
    rewrite Hrun in Hgen. cbn [mbind option_bind] in Hgen.
    rewrite calculateChemistry_written in Hgen.
    injection Hgen as <-. cbn [squad set_totals totalCost].
    rewrite chemistry_written_all, Hsquad, Hcost.
    split; [reflexivity |]. cbn [totalCost set_formation].
    subst slots. lia. }
  destruct Hfields as [Hsquad Hcost].
  repeat split; try assumption.
  rewrite Hchem, Hlen. reflexivity.
Qed.

Lemma costs_total_set_chemistry (squad : list Player) (v : Z) :
  costs_total ((λ p, set_chemistry p v) <$> squad) = costs_total squad.
Proof.
  unfold costs_total. rewrite <- list_fmap_compose. reflexivity.
Qed.

(** ** Squad rating between the extremes *)

Lemma calculateSquadRating_bounded (squad : list Player) (lo hi : Z) :
  squad ≠ [] →
  (∀ p, p ∈ squad → lo <= rating p <= hi) →
  lo <= calculateSquadRating squad <= hi.
Proof.
  intros Hne Hbounds.
  assert (Htotal : lo * Z.of_nat (length squad) <= ratings_total squad
                   <= hi * Z.of_nat (length squad)).
  { clear Hne. unfold ratings_total.
    induction squad as [|p rest IH]; [simpl; lia |].
    rewrite fmap_cons. cbn [foldr length].
    specialize (IH ltac:(intros q Hq; apply Hbounds; right; exact Hq)).
    specialize (Hbounds p ltac:(left)). lia. }
  unfold calculateSquadRating.
  destruct (decide (length squad = 0%nat)) as [Hlen | Hlen].
  { destruct squad; [congruence | discriminate]. }
  rewrite sum_ratings_total.
  pose proof (Math_round_quotient (ratings_total squad)
                (Z.of_nat (length squad)) ltac:(lia)) as Hr.
  cbv zeta in Hr. nia.
Qed.

(** The aggregate rating of a non-empty squad lies between any lower and
    upper bound of its members' ratings; a squad of equal ratings has that
    rating. *)
Theorem calculateSquadRating_between (squad : list Player) (lo hi : Z) :
  squad ≠ [] →
  (∀ p, p ∈ squad → lo <= rating p <= hi) →
  lo <= calculateSquadRating squad <= hi
  ∧ (lo = hi → calculateSquadRating squad = lo).
Proof.
  intros Hne Hbounds.
  pose proof (calculateSquadRating_bounded squad lo hi Hne Hbounds).
  split; [assumption | lia].
Qed.

Lemma calculateSquadRating_between_witness :
  70 <= calculateSquadRating [rated 70; rated 71; rated 74] <= 74.
Proof.
  apply (calculateSquadRating_between [rated 70; rated 71; rated 74] 70 74);
    [discriminate |].
  intros p Hp. rewrite !elem_of_cons in Hp.
  destruct Hp as [-> | [-> | [-> | Hp]]]; [simpl; lia .. | inversion Hp].
Defined.

(** ** Bounds on the cost estimate *)

Lemma position_multiplier_ge_one (pos : string) :
  (1 <= position_multiplier pos)%Q.
Proof.
  unfold position_multiplier, positionMultipliers.
  destruct (decide (pos = "GK")) as [-> | ?]; [discriminate |].
  destruct (decide (pos = "ST")) as [-> | ?]; [discriminate |].
  destruct (decide (pos = "CAM")) as [-> | ?]; [discriminate |].
  destruct (decide (pos = "CM")) as [-> | ?]; [discriminate |].
  destruct (decide (pos = "CB")) as [-> | ?]; [discriminate |].
  destruct (decide (pos = "LB")) as [-> | ?]; [discriminate |].
  destruct (decide (pos = "RB")) as [-> | ?]; [discriminate |].
  rewrite !lookup_insert_ne by congruence. rewrite lookup_empty.
  discriminate.
Qed.

Lemma Qle_mult_ge_one (q m : Q) :
  (0 <= q)%Q → (1 <= m)%Q → (q <= q * m)%Q.
Proof.
  intros Hq Hm. apply Qle_trans with (q * 1)%Q.
  - rewrite Qmult_1_r. apply Qle_refl.
  - rewrite !(Qmult_comm q). apply Qmult_le_compat_r; assumption.
Qed.

Lemma Math_round_equal (x y : Q) :
  (x == y)%Q → Js.Math_round x = Js.Math_round y.
Proof.
  intros Heq. apply Z.le_antisymm; apply Math_round_mono;
    rewrite Heq; apply Qle_refl.
Qed.

Lemma base_cost_floor (r : string) : 150 <= base_cost r.
Proof.
  destruct (base_cost_tiers r) as (_ & _ & _ & [H | [H | H]]);
    rewrite H; lia.
Qed.

Lemma base_cost_ceiling (r : string) : base_cost r <= 800.
Proof.
  destruct (base_cost_tiers r) as (_ & _ & _ & [H | [H | H]]);
    rewrite H; lia.
Qed.

Lemma base_cost_unknown (r : string) :
  r ∉ ["bronze"; "silver"; "gold"] → base_cost r = 150.
Proof.
  rewrite !not_elem_of_cons. intros (? & ? & ? & _).
  unfold base_cost, playerDatabase; cbn [rarityValues].
  rewrite !lookup_insert_ne by congruence. rewrite lookup_empty.
  reflexivity.
Qed.

Lemma estimatePlayerCost_at_least_base (player : Player) :
  base_cost (rarity player) <= estimatePlayerCost player.
Proof.
  rewrite estimatePlayerCost_unfold.
  rewrite <- (Math_round_integer (base_cost (rarity player))) at 1.
  apply Math_round_mono.
  assert (Hbase : (0 <= inject_Z (base_cost (rarity player)))%Q).
  { change 0%Q with (inject_Z 0). rewrite <- Zle_Qle.
    pose proof (base_cost_floor (rarity player)). lia. }
  eapply Qle_trans; [| apply Qle_mult_ge_one].
  - apply Qle_mult_ge_one; [exact Hbase | apply Q.le_max_l].
  - eapply Qle_trans; [exact Hbase |].
    apply Qle_mult_ge_one; [exact Hbase | apply Q.le_max_l].
  - apply position_multiplier_ge_one.
Qed.

(** For a player whose rarity and position are names that
    [Object.prototype] does not have, the cost of [estimatePlayerCost] is
    never below the base cost of the player's tier, hence never below 150;
    and up to rating 80 the rating plays no part: the cost is the base cost
    times the position multiplier, rounded. *)
Theorem estimatePlayerCost_floor_and_plateau (player : Player) :
  plain_names player = true →
  150 <= base_cost (rarity player) <= estimatePlayerCost player
  ∧ (rating player <= 80 →
     estimatePlayerCost player
     = Js.Math_round (inject_Z (base_cost (rarity player))
                      * position_multiplier (position player))).
Proof.
  intros _.
  split; [split; [apply base_cost_floor | apply estimatePlayerCost_at_least_base] |].
  intros Hlow. rewrite estimatePlayerCost_unfold.
  apply Math_round_equal.
  assert (Hmax : (Qmax 1 ((inject_Z (rating player) - 70) / 10) == 1)%Q).
  { apply Q.max_l.
    apply Qle_shift_div_r; [reflexivity |].
    change (1 * 10)%Q with (inject_Z 80 - 70)%Q.
    apply Qplus_le_compat; [| apply Qle_refl].
    rewrite <- Zle_Qle. exact Hlow. }
  rewrite Hmax, Qmult_1_r. reflexivity.
Qed.

Lemma estimatePlayerCost_floor_and_plateau_witness :
  estimatePlayerCost (card "GK" 64 "bronze")
  = Js.Math_round (inject_Z (base_cost "bronze") * position_multiplier "GK").
Proof.
  destruct (estimatePlayerCost_floor_and_plateau (card "GK" 64 "bronze"))
    as [_ H]; [vm_compute; reflexivity |].
  apply H. simpl. lia.
Defined.

Lemma estimatePlayerCost_base_mono (p1 p2 : Player) :
  position p1 = position p2 →
  rating p1 = rating p2 →
  base_cost (rarity p1) <= base_cost (rarity p2) →
  estimatePlayerCost p1 <= estimatePlayerCost p2.
Proof.
  intros Hpos Hrat Hbase.
  rewrite !estimatePlayerCost_unfold, Hpos, Hrat.
  apply Math_round_mono.
  apply Qmult_le_compat_r; [| apply position_multiplier_nonneg].
  apply Qmult_le_compat_r.
  - rewrite <- Zle_Qle. exact Hbase.
  - eapply Qle_trans; [| apply Q.le_max_l]. discriminate.
Qed.

(** Rarity tiers for one position and rating, for players whose rarity and
    position are names that [Object.prototype] does not have: a bronze
    card, or a card whose rarity is none of the three table keys, costs
    least; a gold card costs most; and a card of unknown rarity costs what
    a bronze one does. *)
Theorem estimatePlayerCost_tiers (p1 p2 : Player) :
  plain_names p1 = true →
  plain_names p2 = true →
  position p1 = position p2 →
  rating p1 = rating p2 →
  (rarity p1 = "bronze" ∨ rarity p1 ∉ ["bronze"; "silver"; "gold"] →
     estimatePlayerCost p1 <= estimatePlayerCost p2)
  ∧ (rarity p2 = "gold" → estimatePlayerCost p1 <= estimatePlayerCost p2)
  ∧ (rarity p1 ∉ ["bronze"; "silver"; "gold"] → rarity p2 = "bronze" →
     estimatePlayerCost p1 = estimatePlayerCost p2).
Proof.
  intros _ _ Hpos Hrat.
  destruct (base_cost_tiers "bronze") as (Hbronze & _ & Hgold & _).
  split; [| split].
  - intros Hcheap. apply estimatePlayerCost_base_mono; try assumption.
    assert (base_cost (rarity p1) = 150) as ->
      by (destruct Hcheap as [-> | Hu];
          [exact Hbronze | apply base_cost_unknown, Hu]).
    apply base_cost_floor.
  - intros Hg. apply estimatePlayerCost_base_mono; try assumption.
    rewrite Hg, Hgold. apply base_cost_ceiling.
  - intros Hu Hb.
    apply Z.le_antisymm; apply estimatePlayerCost_base_mono;
      try (symmetry; assumption); try assumption;
      rewrite (base_cost_unknown _ Hu), Hb, Hbronze; lia.
Qed.

Lemma estimatePlayerCost_tiers_witness :
  estimatePlayerCost (card "ST" 86 "bronze")
  <= estimatePlayerCost (card "ST" 86 "silver")
  ∧ estimatePlayerCost (card "ST" 86 "silver")
    <= estimatePlayerCost (card "ST" 86 "gold")
  ∧ estimatePlayerCost (card "ST" 86 "icon")
    = estimatePlayerCost (card "ST" 86 "bronze").
Proof.
  split; [| split].
  - destruct (estimatePlayerCost_tiers (card "ST" 86 "bronze")
                (card "ST" 86 "silver") eq_refl eq_refl eq_refl eq_refl)
      as (Hcheap & _ & _).
    apply Hcheap. left. reflexivity.
  - destruct (estimatePlayerCost_tiers (card "ST" 86 "silver")
                (card "ST" 86 "gold") eq_refl eq_refl eq_refl eq_refl)
      as (_ & Hdear & _).
    apply Hdear. reflexivity.
  - destruct (estimatePlayerCost_tiers (card "ST" 86 "icon")
                (card "ST" 86 "bronze") eq_refl eq_refl eq_refl eq_refl)
      as (_ & _ & Hsame).
    apply Hsame; [| reflexivity].
    cbn [rarity card]. rewrite !not_elem_of_cons.
    repeat split; try discriminate. apply not_elem_of_nil.
Defined.

(** ** The required rating is enough *)

(** While a slot is open, [calculateRequiredRating] returns a finite rating
    that is at least [minRating - 5] and that, given to every open slot,
    brings the sum of ratings to [minRating * squadSize] or more. *)
Theorem calculateRequiredRating_suffices (parsedReqs : ParsedReqs)
    (currentSquad : list Player) :
  Z.of_nat (length currentSquad) < squadSize parsedReqs →
  ∃ r : Z,
    calculateRequiredRating parsedReqs currentSquad = Js.Fin r
    ∧ minRating parsedReqs - 5 <= r
    ∧ minRating parsedReqs * squadSize parsedReqs
      <= ratings_total currentSquad
         + r * (squadSize parsedReqs - Z.of_nat (length currentSquad)).
Proof.
  intros Hopen. unfold calculateRequiredRating.
  destruct (decide (length currentSquad = 0%nat)) as [Hlen | Hlen].
  - exists (minRating parsedReqs). split; [reflexivity |].
    destruct currentSquad; [| discriminate].
    unfold ratings_total. simpl. lia.
  - rewrite sum_ratings_total.
    set (remaining := squadSize parsedReqs - Z.of_nat (length currentSquad)).
    set (needed := minRating parsedReqs * squadSize parsedReqs
                   - ratings_total currentSquad).
    unfold Js.div. destruct (Z.eqb_spec remaining 0) as [Hz | Hz];
      [subst remaining; lia |].
    cbn [Js.Math_ceil_ext Js.Math_max_ext].
    eexists; split; [reflexivity |].
    pose proof (Math_ceil_quotient needed remaining
                  ltac:(subst remaining; lia)) as Hc.
    cbv zeta in Hc. subst needed. subst remaining. nia.
Qed.

Lemma calculateRequiredRating_suffices_witness :
  ∃ r : Z,
    calculateRequiredRating (parseRequirements (minimal_object 11 95))
      [rated 60; rated 70] = Js.Fin r
    ∧ 75 - 5 <= r
    ∧ 75 * 11 <= 130 + r * (11 - 2).
Proof.
  apply (calculateRequiredRating_suffices
           (parseRequirements (minimal_object 11 95)) [rated 60; rated 70]).
  reflexivity.
Defined.

(** ** What a build contains *)

Section BuildContents.

Variable parsedReqs : ParsedReqs.

Lemma built_member (p : Player) (n : nat) :
  p ∈ (λ p, set_chemistry p 10) <$> (slot_player parsedReqs <$> seq 0 n) →
  ∃ i : nat, (i < n)%nat ∧ p = set_chemistry (slot_player parsedReqs i) 10.
Proof.
  intros (q & -> & (i & -> & Hi)%list_elem_of_fmap)%list_elem_of_fmap.
  apply elem_of_seq in Hi. exists i. split; [lia | reflexivity].
Qed.

Lemma costs_total_floor (squad : list Player) :
  (∀ p, p ∈ squad → 150 <= cost p) →
  150 * Z.of_nat (length squad) <= costs_total squad.
Proof.
  unfold costs_total.
  induction squad as [|p rest IH]; intros Hcost; [simpl; lia |].
  rewrite fmap_cons. cbn [foldr length].
  specialize (IH ltac:(intros q Hq; apply Hcost; right; exact Hq)).
  specialize (Hcost p ltac:(left)). lia.
Qed.

Lemma slot_player_cost (i : nat) :
  cost (slot_player parsedReqs i)
  = estimatePlayerCost (set_chemistry (slot_player parsedReqs i) 10).
Proof. reflexivity. Qed.

(** The label of a slot is a position of the formation or 'SUB', none of
    which [Object.prototype] has; the rarity is the one chosen for the
    build. *)
Lemma slot_player_plain_names (i : nat) :
  Js.inherited_name (selectOptimalRarity parsedReqs) = false →
  plain_names (set_chemistry (slot_player parsedReqs i) 10) = true.
Proof.
  intros Hrarity. unfold plain_names.
  cbn [rarity position set_chemistry slot_player set_cost].
  rewrite Hrarity. cbn [negb andb].
  unfold labels_433.
  do 11 (destruct i as [|i]; [vm_compute; reflexivity |]).
  vm_compute; reflexivity.
Qed.

End BuildContents.

(** Every player of a build has the minimum rating as its rating; for a
    positive squad size the aggregate rating is that rating and the rating
    check passes. *)
Theorem generateSolution_ratings (parsedReqs : ParsedReqs) :
  ∃ solution : Solution,
    generateSolution parsedReqs = Some solution
    ∧ (∀ p, p ∈ squad solution → rating p = minRating parsedReqs)
    ∧ (0 < squadSize parsedReqs →
       totalRating solution = minRating parsedReqs
       ∧ check_rating (checks (checkRequirements solution parsedReqs)) = true).
Proof.
  destruct (generateSolution_closed parsedReqs)
    as (solution & Hgen & Hsquad & _ & _ & Hrating & _).
  exists solution. split; [exact Hgen |].
  assert (Hall : ∀ p, p ∈ squad solution → rating p = minRating parsedReqs).
  { intros p Hp. rewrite Hsquad in Hp.
    apply built_member in Hp as (i & _ & ->). reflexivity. }
  split; [exact Hall |].
  intros Hpos.
  assert (Htotal : totalRating solution = minRating parsedReqs).
  { rewrite Hrating.
    pose proof (calculateSquadRating_bounded (squad solution)
                  (minRating parsedReqs) (minRating parsedReqs)) as Hb.
    assert (Hne : squad solution ≠ []).
    { intros Hnil. apply (f_equal length) in Hnil.
      rewrite Hsquad, !length_fmap, length_seq in Hnil. simpl in Hnil. lia. }
    specialize (Hb Hne ltac:(intros p Hp; rewrite (Hall p Hp); lia)). lia. }
  split; [exact Htotal |].
  cbn [checkRequirements checks check_rating].
  rewrite Htotal. apply Z.leb_refl.
Qed.

Lemma generateSolution_ratings_witness :
  ∃ solution : Solution,
    generateSolution (parseRequirements (minimal_object 13 95)) = Some solution
    ∧ totalRating solution = 75.
Proof.
  destruct (generateSolution_ratings (parseRequirements (minimal_object 13 95)))
    as (solution & Hgen & _ & Hpos).
  exists solution. split; [exact Hgen |].
  apply Hpos. reflexivity.
Defined.

(** Every player of a build has the same league, nation, club and rarity:
    the first element of the matching constraint list when that list is
    not empty, and otherwise 'Premier League', 'England',
    'Manchester City' and the rarity chosen from the minimum rating.  So a
    non-empty constraint list always contains the attribute of every
    player. *)
Theorem generateSolution_attributes (parsedReqs : ParsedReqs) :
  ∃ solution : Solution,
    generateSolution parsedReqs = Some solution
    ∧ ∀ p, p ∈ squad solution →
        league p = house_league parsedReqs
        ∧ nation p = house_nation parsedReqs
        ∧ club p = house_club parsedReqs
        ∧ rarity p = selectOptimalRarity parsedReqs
        ∧ (leagues (constraints parsedReqs) ≠ [] →
           league p ∈ leagues (constraints parsedReqs))
        ∧ (nations (constraints parsedReqs) ≠ [] →
           nation p ∈ nations (constraints parsedReqs))
        ∧ (clubs (constraints parsedReqs) ≠ [] →
           club p ∈ clubs (constraints parsedReqs))
        ∧ (rarities (constraints parsedReqs) ≠ [] →
           rarity p ∈ rarities (constraints parsedReqs)).
Proof.
  destruct (generateSolution_closed parsedReqs)
    as (solution & Hgen & Hsquad & _).
  exists solution. split; [exact Hgen |].
  intros p Hp. rewrite Hsquad in Hp.
  apply built_member in Hp as (i & _ & ->).
  cbn [league nation club rarity set_chemistry slot_player set_cost].
  unfold house_league, house_nation, house_club, selectOptimalRarity.
  repeat split; try reflexivity; intros Hne.
  - destruct (leagues (constraints parsedReqs)); [congruence | left].
  - destruct (nations (constraints parsedReqs)); [congruence | left].
  - destruct (clubs (constraints parsedReqs)); [congruence | left].
  - destruct (rarities (constraints parsedReqs)); [congruence | left].
Qed.

Lemma generateSolution_attributes_witness :
  let parsedReqs :=
    parseRequirements (preset 11 95 70 8000 (Some ["silver"; "gold"])) in
  ∃ solution : Solution,
    generateSolution parsedReqs = Some solution
    ∧ ∀ p, p ∈ squad solution →
        rarity p ∈ rarities (constraints parsedReqs).
Proof.
  intros parsedReqs.
  destruct (generateSolution_attributes parsedReqs) as (solution & Hgen & Hall).
  exists solution. split; [exact Hgen |].
  intros p Hp. destruct (Hall p Hp) as (_ & _ & _ & _ & _ & _ & _ & Hrar).
  apply Hrar. discriminate.
Defined.

(** When the rarity chosen for the build is a name that [Object.prototype]
    does not have, every player of the build has such a rarity and such a
    position, the total cost of the build is the sum of the costs of its
    players, each of which is the estimate for that very player, and the
    total is at least 150 per player. *)
Theorem generateSolution_costs (parsedReqs : ParsedReqs) :
  Js.inherited_name (selectOptimalRarity parsedReqs) = false →
  ∃ solution : Solution,
    generateSolution parsedReqs = Some solution
    ∧ totalCost solution = costs_total (squad solution)
    ∧ (∀ p, p ∈ squad solution →
         plain_names p = true ∧ cost p = estimatePlayerCost p)
    ∧ 150 * Z.of_nat (length (squad solution)) <= totalCost solution.
Proof.
  intros Hrarity.
  destruct (generateSolution_closed parsedReqs)
    as (solution & Hgen & Hsquad & Hcost & _).
  exists solution. split; [exact Hgen |].
  assert (Htotal : totalCost solution = costs_total (squad solution))
    by (rewrite Hsquad, costs_total_set_chemistry; exact Hcost).
  assert (Hown : ∀ p, p ∈ squad solution →
            plain_names p = true ∧ cost p = estimatePlayerCost p).
  { intros p Hp. rewrite Hsquad in Hp.
    apply built_member in Hp as (i & _ & ->).
    split; [apply slot_player_plain_names, Hrarity | reflexivity]. }
  split; [exact Htotal |]. split; [exact Hown |].
  rewrite Htotal. apply costs_total_floor.
  intros p Hp. destruct (Hown p Hp) as [_ ->].
  pose proof (base_cost_floor (rarity p)).
  pose proof (estimatePlayerCost_at_least_base p). lia.
Qed.

Lemma generateSolution_check (parsedReqs : ParsedReqs) :
  0 < squadSize parsedReqs →
  ∃ solution : Solution,
    generateSolution parsedReqs = Some solution
    ∧ (success (checkRequirements solution parsedReqs) = true
       ↔ minChemistry parsedReqs <= 10 * squadSize parsedReqs
         ∧ totalCost solution <= maxCost parsedReqs).
Proof.
  intros Hpos.
  destruct (generateSolution_closed parsedReqs)
    as (solution & Hgen & Hsquad & _ & Hchem & Hrating & _).
  exists solution. split; [exact Hgen |].
  assert (Hlen : Z.of_nat (length (squad solution)) = squadSize parsedReqs)
    by (rewrite Hsquad, !length_fmap, length_seq; lia).
  assert (Hall : ∀ p, p ∈ squad solution →
            minRating parsedReqs <= rating p <= minRating parsedReqs).
  { intros p Hp. rewrite Hsquad in Hp.
    apply built_member in Hp as (i & _ & ->). cbn. lia. }
  assert (Hne : squad solution ≠ [])
    by (intros Hnil; rewrite Hnil in Hlen; simpl in Hlen; lia).
  pose proof (calculateSquadRating_bounded _ _ _ Hne Hall) as Hr.
  cbn [checkRequirements success checks forallb check_chemistry check_rating
       check_cost check_squadSize].
  rewrite !andb_true_iff, !Z.leb_le, bool_decide_eq_true.
  rewrite Hchem, Hrating, Hlen. split.
  - intros (Hc & _ & Hcost & _). split; [lia | exact Hcost].
  - intros (Hc & Hcost). repeat split; try assumption; lia.
Qed.

(** For a positive squad size the four-way check of a build comes down to
    two conditions: the required chemistry is at most 10 per slot, and the
    total cost is within the budget. *)
Theorem generateSolution_success (parsedReqs : ParsedReqs) :
  0 < squadSize parsedReqs →
  ∃ solution : Solution,
    generateSolution parsedReqs = Some solution
    ∧ (success (checkRequirements solution parsedReqs) = true
       ↔ minChemistry parsedReqs <= 10 * squadSize parsedReqs
         ∧ totalCost solution <= maxCost parsedReqs).
Proof. exact (generateSolution_check parsedReqs). Qed.

Lemma generateSolution_success_witness :
  ∃ solution : Solution,
    generateSolution (parseRequirements (minimal_object 1 0)) = Some solution
    ∧ (success (checkRequirements solution
                  (parseRequirements (minimal_object 1 0))) = true
       ↔ 100 <= 10 * 1 ∧ totalCost solution <= 50000).
Proof.
  apply (generateSolution_success (parseRequirements (minimal_object 1 0))).
  reflexivity.
Defined.

(** A negative squad size gives an empty squad with all totals 0, and the
    requirement check fails on the squad size. *)
Theorem generateSolution_negative_size (parsedReqs : ParsedReqs) :
  squadSize parsedReqs < 0 →
  ∃ solution : Solution,
    generateSolution parsedReqs = Some solution
    ∧ squad solution = []
    ∧ totalCost solution = 0
    ∧ totalChemistry solution = 0
    ∧ totalRating solution = 0
    ∧ success (checkRequirements solution parsedReqs) = false.
Proof.
  intros Hneg.
  destruct (generateSolution_closed parsedReqs)
    as (solution & Hgen & Hsquad & Hcost & Hchem & Hrating & _).
  exists solution. split; [exact Hgen |].
  replace (Z.to_nat (squadSize parsedReqs)) with 0%nat in * by lia.
  cbn in Hsquad, Hcost, Hchem.
  rewrite Hsquad in Hrating.
  repeat split; try assumption.
  cbn [checkRequirements success checks forallb check_squadSize].
  rewrite Hsquad. cbn [length].
  rewrite (bool_decide_eq_false_2 (Z.of_nat 0 = squadSize parsedReqs))
    by (simpl; lia).
  rewrite !andb_false_r. reflexivity.
Qed.

Lemma generateSolution_negative_size_witness :
  ∃ solution : Solution,
    generateSolution (parseRequirements (minimal_object (-3) 95))
    = Some solution
    ∧ squad solution = []
    ∧ success (checkRequirements solution
                 (parseRequirements (minimal_object (-3) 95))) = false.
Proof.
  destruct (generateSolution_negative_size
              (parseRequirements (minimal_object (-3) 95)) eq_refl)
    as (solution & Hgen & Hsquad & _ & _ & _ & Hfail).
  exists solution. repeat split; assumption.
Defined.

(** Whatever the leagues, nations and clubs of a squad, [calculateChemistry]
    writes chemistry 10 into every member, changes nothing else, and
    returns 10 times the number of members: link bonuses never show. *)
Theorem calculateChemistry_links_never_show (squad : list Player)
    (parsedReqs : ParsedReqs) :
  calculateChemistry squad parsedReqs
  = ((λ p, set_chemistry p 10) <$> squad, 10 * Z.of_nat (length squad)).
Proof.
  rewrite calculateChemistry_written, chemistry_written_all,
    chemistry_partial_ten.
  reflexivity.
Qed.

(** ** Advisory messages *)

Lemma solution_eq (a b : Solution) :
  squad a = squad b →
  totalCost a = totalCost b →
  totalChemistry a = totalChemistry b →
  totalRating a = totalRating b →
  strategy a = strategy b →
  warnings a = warnings b →
  formation a = formation b →
  a = b.
Proof.
  destruct a, b. cbn. intros. subst. reflexivity.
Qed.

(** Compares, field by field, the outcome of a run of pushes with a
    record, after bringing the lists to one shape. *)
Ltac flatten_pushes :=
  apply solution_eq;
  cbn [squad totalCost totalChemistry totalRating strategy warnings formation
       push_strategy push_warning];
  try reflexivity;
  unfold fixed_tips; rewrite <- ?app_assoc; cbn [app];
  repeat match goal with
         | |- context [app ?l []] => rewrite (app_nil_r l)
         end;
  reflexivity.

Lemma optimizeSolution_fields (solution : Solution) (parsedReqs : ParsedReqs) :
  let met := success (checkRequirements solution parsedReqs) in
  let within := totalCost solution <=? maxCost parsedReqs in
  let linked := minChemistry parsedReqs <=? totalChemistry solution in
  optimizeSolution solution parsedReqs
  = {| squad := squad solution;
       totalCost := totalCost solution;
       totalChemistry := totalChemistry solution;
       totalRating := totalRating solution;
       strategy :=
         strategy solution
         ++ (if met then []
             else ["Consider increasing budget or relaxing constraints"])
         ++ fixed_tips
         ++ (if within then [] else ["Reduce player ratings to lower cost"])
         ++ (if linked then [] else ["Focus on same league/nation links"]);
       warnings :=
         warnings solution
         ++ (if met then [] else ["Solution does not meet all requirements"])
         ++ (if within then []
             else ["Solution exceeds budget by "
                     +:+ Js.num_to_string
                           (totalCost solution - maxCost parsedReqs)
                     +:+ " coins"])
         ++ (if linked then []
             else ["Chemistry "
                     +:+ Js.num_to_string (totalChemistry solution)
                     +:+ " below required "
                     +:+ Js.num_to_string (minChemistry parsedReqs)]);
       formation := formation solution |}.
Proof.
  intros met within linked. unfold optimizeSolution. fold met.
  cbn [totalCost totalChemistry push_strategy push_warning].
  assert (Hcost : ∀ s : Solution,
            (maxCost parsedReqs <? totalCost s) = negb (totalCost s <=? maxCost parsedReqs))
    by (intros s0; apply Z.ltb_antisym).
  assert (Hchem : ∀ s : Solution,
            (totalChemistry s <? minChemistry parsedReqs)
            = negb (minChemistry parsedReqs <=? totalChemistry s))
    by (intros s0; apply Z.ltb_antisym).
  destruct met.
  - cbn [negb]. cbn [totalCost totalChemistry push_strategy push_warning].
    rewrite Hcost. fold within. destruct within; cbn [negb].
    + cbn [totalCost totalChemistry push_strategy push_warning].
      rewrite Hchem. fold linked. destruct linked; cbn [negb];
        flatten_pushes.
    + cbn [totalCost totalChemistry push_strategy push_warning].
      rewrite Hchem. fold linked. destruct linked; cbn [negb];
        flatten_pushes.
  - cbn [negb]. cbn [totalCost totalChemistry push_strategy push_warning].
    rewrite Hcost. fold within. destruct within; cbn [negb].
    + cbn [totalCost totalChemistry push_strategy push_warning].
      rewrite Hchem. fold linked. destruct linked; cbn [negb];
        flatten_pushes.
    + cbn [totalCost totalChemistry push_strategy push_warning].
      rewrite Hchem. fold linked. destruct linked; cbn [negb];
        flatten_pushes.
Qed.

(** [optimizeSolution] leaves the squad, the totals and the formation as
    they are; it adds the three fixed tips and at most three more; it adds
    a warning exactly when the requirement check fails; and a solution over
    budget or under the required chemistry gets the warning that states the
    figures. *)
Theorem optimizeSolution_advice (solution : Solution)
    (parsedReqs : ParsedReqs) :
  let result := optimizeSolution solution parsedReqs in
  (squad result = squad solution
   ∧ totalCost result = totalCost solution
   ∧ totalChemistry result = totalChemistry solution
   ∧ totalRating result = totalRating solution
   ∧ formation result = formation solution)
  ∧ (∀ tip, tip ∈ fixed_tips → tip ∈ strategy result)
  ∧ (length (strategy solution) + 3 ≤ length (strategy result)
     ≤ length (strategy solution) + 6)%nat
  ∧ (warnings result = warnings solution
     ↔ success (checkRequirements solution parsedReqs) = true)
  ∧ (maxCost parsedReqs < totalCost solution →
     ("Solution exceeds budget by "
        +:+ Js.num_to_string (totalCost solution - maxCost parsedReqs)
        +:+ " coins") ∈ warnings result)
  ∧ (totalChemistry solution < minChemistry parsedReqs →
     ("Chemistry " +:+ Js.num_to_string (totalChemistry solution)
        +:+ " below required "
        +:+ Js.num_to_string (minChemistry parsedReqs)) ∈ warnings result).
Proof.
  intros result. subst result. rewrite optimizeSolution_fields.
  cbn [squad totalCost totalChemistry totalRating formation strategy warnings].
  split; [repeat split |].
  assert (Hmet : success (checkRequirements solution parsedReqs) = true →
                 (totalCost solution <=? maxCost parsedReqs) = true
                 ∧ (minChemistry parsedReqs <=? totalChemistry solution) = true).
  { cbn [checkRequirements success checks forallb check_chemistry check_rating
         check_cost check_squadSize].
    rewrite !andb_true_iff. tauto. }
  split; [| split; [| split; [| split]]].
  - intros tip Htip. rewrite !elem_of_app. right. right. left. exact Htip.
  - rewrite !length_app. unfold fixed_tips. cbn [length].
    destruct (success _), (_ <=? _), (_ <=? _); cbn [length]; lia.
  - split.
    + intros Hsame.
      destruct (success (checkRequirements solution parsedReqs));
        [reflexivity |].
      apply (f_equal length) in Hsame. rewrite !length_app in Hsame.
      cbn [length] in Hsame. lia.
    + intros Hok. destruct (Hmet Hok) as [-> ->]. rewrite Hok.
      rewrite !app_nil_r. reflexivity.
  - intros Hover.
    rewrite (proj2 (Z.leb_gt _ _) Hover).
    rewrite !elem_of_app. right. right. left. left.
  - intros Hunder.
    rewrite (proj2 (Z.leb_gt _ _) Hunder).
    rewrite !elem_of_app. right. right. right. left.
Qed.

Lemma optimizeSolution_advice_witness :
  let solution := {|
    squad := []; totalCost := 9000; totalChemistry := 40; totalRating := 70;
    strategy := []; warnings := []; formation := None
  |} in
  let parsedReqs := parseRequirements (preset 11 95 70 8000 None) in
  "Solution exceeds budget by 1000 coins"
  ∈ warnings (optimizeSolution solution parsedReqs)
  ∧ "Chemistry 40 below required 95"
    ∈ warnings (optimizeSolution solution parsedReqs).
Proof.
  intros solution parsedReqs.
  destruct (optimizeSolution_advice solution parsedReqs)
    as (_ & _ & _ & _ & Hover & Hunder).
  split; [apply Hover | apply Hunder]; reflexivity.
Defined.

(** ** The solve entry point on valid input *)

Lemma validateRequirements_keys (o : RawRequirements) :
  is_Some (raw_players o) →
  is_Some (raw_chemistry o) →
  validateRequirements (JsObject o) = true.
Proof.
  intros Hp Hc. unfold validateRequirements.
  cbn [truthy typeof negb orb forallb key_in].
  rewrite (bool_decide_eq_true_2 _ (eq_refl "object")).
  cbn [negb]. unfold has_key.
  rewrite decide_True by reflexivity.
  rewrite decide_False by discriminate.
  rewrite decide_True by reflexivity.
  rewrite !bool_decide_eq_true_2 by assumption. reflexivity.
Qed.

(** [solveSBCRequirements] hands back a solution, and not an error result,
    exactly for an object that has both the [players] and the [chemistry]
    key. *)
Theorem solve_builds_iff_valid (input : JsArg) :
  (∃ solution : Solution,
     solveSBCRequirements input = Some (Normal (SolutionResult solution)))
  ↔ ∃ o : RawRequirements,
      input = JsObject o
      ∧ is_Some (raw_players o) ∧ is_Some (raw_chemistry o).
Proof.
  unfold solveSBCRequirements, solve_try. split.
  - intros [solution Hsolve].
    destruct (validateRequirements input) eqn:Hvalid.
    + apply validateRequirements_object, Hvalid.
    + cbn in Hsolve. discriminate.
  - intros (o & -> & Hp & Hc).
    rewrite (validateRequirements_keys o Hp Hc). cbn [negb].
    destruct (generateSolution_built (parseRequirements o))
      as (solution & Hgen & _).
    rewrite Hgen. cbn. eauto.
Qed.

(** For an object with both mandatory keys and a positive squad size the
    entry point returns a solution of exactly that many players, with
    chemistry 10 per player and the minimum rating as rating; its warnings
    are empty exactly when the required chemistry is at most 10 per player
    and the total cost is within the budget; its strategy holds the three
    fixed tips. *)
Theorem solve_outcome (o : RawRequirements) :
  let parsedReqs := parseRequirements o in
  is_Some (raw_players o) →
  is_Some (raw_chemistry o) →
  0 < squadSize parsedReqs →
  ∃ solution : Solution,
    solveSBCRequirements (JsObject o)
    = Some (Normal (SolutionResult solution))
    ∧ Z.of_nat (length (squad solution)) = squadSize parsedReqs
    ∧ totalChemistry solution = 10 * squadSize parsedReqs
    ∧ totalRating solution = minRating parsedReqs
    ∧ totalCost solution = costs_total (squad solution)
    ∧ (warnings solution = []
       ↔ minChemistry parsedReqs <= 10 * squadSize parsedReqs
         ∧ totalCost solution <= maxCost parsedReqs)
    ∧ (∀ tip, tip ∈ fixed_tips → tip ∈ strategy solution).
Proof.
  intros parsedReqs Hp Hc Hpos.
  unfold solveSBCRequirements, solve_try.
  rewrite (validateRequirements_keys o Hp Hc). cbn [negb].
  fold parsedReqs.
  destruct (generateSolution_closed parsedReqs)
    as (built & Hgen & Hsquad & Hcost & Hchem & Hrating & Hs & Hw & _).
  destruct (generateSolution_check parsedReqs Hpos)
    as (built' & Hgen' & Hcheck).
  rewrite Hgen in Hgen'. injection Hgen' as <-.
  rewrite Hgen. cbn [mbind option_bind try_catch].
  eexists. split; [reflexivity |].
  rewrite optimizeSolution_fields.
  cbn [squad totalCost totalChemistry totalRating strategy warnings].
  assert (Hlen : Z.of_nat (length (squad built)) = squadSize parsedReqs)
    by (rewrite Hsquad, !length_fmap, length_seq; lia).
  assert (Hall : ∀ p, p ∈ squad built →
            minRating parsedReqs <= rating p <= minRating parsedReqs).
  { intros p Hin. rewrite Hsquad in Hin.
    apply built_member in Hin as (i & _ & ->).
    cbn [rating set_chemistry slot_player set_cost]. lia. }
  assert (Hne : squad built ≠ [])
    by (intros Hnil; rewrite Hnil in Hlen; cbn [length] in Hlen; lia).
  pose proof (calculateSquadRating_bounded _ _ _ Hne Hall) as Hr.
  split; [exact Hlen |].
  split; [rewrite Hchem; lia |].
  split; [rewrite Hrating; lia |].
  split; [rewrite Hsquad, costs_total_set_chemistry; exact Hcost |].
  split.
  - rewrite Hw, <- Hcheck. cbn [app]. split.
    + intros Hnil.
      destruct (success (checkRequirements built parsedReqs));
        [reflexivity | discriminate].
    + intros Hok. rewrite Hok.
      revert Hok.
      cbn [checkRequirements success checks forallb check_chemistry
           check_rating check_cost check_squadSize].
      rewrite !andb_true_iff. intros (-> & _ & -> & _). reflexivity.
  - intros tip Htip. rewrite !elem_of_app. right. right. left. exact Htip.
Qed.

Lemma solve_outcome_witness :
  ∃ solution : Solution,
    solveSBCRequirements (JsObject (minimal_object 1 0))
    = Some (Normal (SolutionResult solution))
    ∧ Z.of_nat (length (squad solution)) = 1
    ∧ totalChemistry solution = 10 * 1
    ∧ totalRating solution = 75
    ∧ totalCost solution = costs_total (squad solution)
    ∧ (warnings solution = [] ↔ 100 <= 10 * 1 ∧ totalCost solution <= 50000)
    ∧ (∀ tip, tip ∈ fixed_tips → tip ∈ strategy solution).
Proof.
  apply (solve_outcome (minimal_object 1 0)); [eauto | eauto | reflexivity].
Defined.

(** ** Market suggestions *)

Lemma getMarketSuggestions_from (squad : list Player)
    (suggestions : list Suggestion) :
  foldl (fun suggestions player => suggestions ++ [suggestion_of player])
        suggestions squad
  = suggestions ++ (suggestion_of <$> squad).
Proof.
  revert suggestions. induction squad as [|p rest IH]; intros suggestions.
  - cbn. rewrite app_nil_r. reflexivity.
  - cbn [foldl]. rewrite IH, fmap_cons, <- app_assoc. reflexivity.
Qed.

(** [getMarketSuggestions] gives one suggestion per squad member, in squad
    order; the suggestion for a member carries its position, league and
    nation, the window from rating - 2 to rating + 2, its cost as the
    maximum price, and three alternatives. *)
Theorem getMarketSuggestions_per_player (solution : Solution) :
  length (getMarketSuggestions solution) = length (squad solution)
  ∧ ∀ (i : nat) (p : Player),
      squad solution !! i = Some p →
      ∃ s : Suggestion,
        getMarketSuggestions solution !! i = Some s
        ∧ suggestion_position s = position p
        ∧ filter_league (searchFilters s) = league p
        ∧ filter_nation (searchFilters s) = nation p
        ∧ filter_rating (searchFilters s)
          = Js.num_to_string (rating p - 2) +:+ "-"
              +:+ Js.num_to_string (rating p + 2)
        ∧ maxPrice (searchFilters s) = cost p
        ∧ length (alternatives s) = 3%nat.
Proof.
  unfold getMarketSuggestions. rewrite getMarketSuggestions_from.
  cbn [app]. split; [apply length_fmap |].
  intros i p Hp. exists (suggestion_of p).
  rewrite list_lookup_fmap, Hp. repeat split.
Qed.

Lemma getMarketSuggestions_per_player_witness :
  let solution := {|
    squad := [set_cost (card "GK" 84 "gold") 1344;
              set_cost (card "ST" 86 "gold") 1664];
    totalCost := 3008; totalChemistry := 20; totalRating := 85;
    strategy := []; warnings := []; formation := None
  |} in
  ∃ s : Suggestion,
    getMarketSuggestions solution !! 1%nat = Some s
    ∧ suggestion_position s = "ST"
    ∧ filter_league (searchFilters s) = "Premier League"
    ∧ filter_nation (searchFilters s) = "England"
    ∧ filter_rating (searchFilters s) = "84-88"
    ∧ maxPrice (searchFilters s) = 1664
    ∧ length (alternatives s) = 3%nat.
Proof.
  intros solution.
  destruct (getMarketSuggestions_per_player solution) as [_ H].
  apply (H 1%nat (set_cost (card "ST" 86 "gold") 1664)). reflexivity.
Defined.

(** ** Normalization never yields a zero *)

(** In a normalized record the squad size, the minimum chemistry, the
    minimum rating and the budget are never 0, and no distribution limit
    is 0: a present 0 is replaced like an absent key (by 11, 100, 75, 50000
    or null).  Every present number other than 0 is kept, in each of the
    nine numeric fields, and so is every present list and the present
    positions object; an absent list is the empty list and absent
    positions are the empty object. *)
Theorem parseRequirements_zero_free (o : RawRequirements) :
  let parsed := parseRequirements o in
  (squadSize parsed ≠ 0 ∧ minChemistry parsed ≠ 0
   ∧ minRating parsed ≠ 0 ∧ maxCost parsed ≠ 0)
  ∧ (maxSameLeague (special parsed) ≠ Some 0
     ∧ maxSameNation (special parsed) ≠ Some 0
     ∧ maxSameClub (special parsed) ≠ Some 0
     ∧ minDifferentLeagues (special parsed) ≠ Some 0
     ∧ minDifferentNations (special parsed) ≠ Some 0)
  ∧ (raw_maxCost o = Some 0 ∨ raw_maxCost o = None → maxCost parsed = 50000)
  ∧ (∀ n, n ≠ 0 →
       (raw_players o = Some n → squadSize parsed = n)
       ∧ (raw_chemistry o = Some n → minChemistry parsed = n)
       ∧ (raw_rating o = Some n → minRating parsed = n)
       ∧ (raw_maxCost o = Some n → maxCost parsed = n)
       ∧ (raw_maxSameClub o = Some n → maxSameClub (special parsed) = Some n))
  ∧ (∀ l,
       (raw_leagues o = Some l → leagues (constraints parsed) = l)
       ∧ (raw_nations o = Some l → nations (constraints parsed) = l)
       ∧ (raw_clubs o = Some l → clubs (constraints parsed) = l)
       ∧ (raw_rarities o = Some l → rarities (constraints parsed) = l))
  ∧ (∀ n, n ≠ 0 →
       (raw_maxSameLeague o = Some n
        → maxSameLeague (special parsed) = Some n)
       ∧ (raw_maxSameNation o = Some n
          → maxSameNation (special parsed) = Some n)
       ∧ (raw_minDifferentLeagues o = Some n
          → minDifferentLeagues (special parsed) = Some n)
       ∧ (raw_minDifferentNations o = Some n
          → minDifferentNations (special parsed) = Some n))
  ∧ (∀ m, raw_positions o = Some m → positions (constraints parsed) = m)
  ∧ ((raw_players o = Some 0 ∨ raw_players o = None → squadSize parsed = 11)
     ∧ (raw_chemistry o = Some 0 ∨ raw_chemistry o = None
        → minChemistry parsed = 100)
     ∧ (raw_rating o = Some 0 ∨ raw_rating o = None → minRating parsed = 75))
  ∧ ((raw_maxSameLeague o = Some 0 ∨ raw_maxSameLeague o = None
      → maxSameLeague (special parsed) = None)
     ∧ (raw_maxSameNation o = Some 0 ∨ raw_maxSameNation o = None
        → maxSameNation (special parsed) = None)
     ∧ (raw_maxSameClub o = Some 0 ∨ raw_maxSameClub o = None
        → maxSameClub (special parsed) = None)
     ∧ (raw_minDifferentLeagues o = Some 0 ∨ raw_minDifferentLeagues o = None
        → minDifferentLeagues (special parsed) = None)
     ∧ (raw_minDifferentNations o = Some 0 ∨ raw_minDifferentNations o = None
        → minDifferentNations (special parsed) = None))
  ∧ ((raw_leagues o = None → leagues (constraints parsed) = [])
     ∧ (raw_nations o = None → nations (constraints parsed) = [])
     ∧ (raw_clubs o = None → clubs (constraints parsed) = [])
     ∧ (raw_rarities o = None → rarities (constraints parsed) = [])
     ∧ (raw_positions o = None → positions (constraints parsed) = ∅)).
Proof.
  intros parsed. subst parsed. unfold parseRequirements.
  cbn [squadSize minChemistry minRating maxCost special constraints
       maxSameLeague maxSameNation maxSameClub minDifferentLeagues
       minDifferentNations leagues nations clubs rarities].
  assert (Hnum : ∀ (x : option Z) (d : Z), d ≠ 0 → Js.or_num x d ≠ 0).
  { intros [v|] d Hd; cbn; [| exact Hd].
    destruct (Z.eqb_spec v 0); assumption. }
  assert (Hnull : ∀ x : option Z, Js.or_null x ≠ Some 0).
  { intros [v|]; cbn; [| discriminate].
    destruct (Z.eqb_spec v 0); congruence. }
  assert (Hkeep : ∀ (n d : Z), n ≠ 0 → Js.or_num (Some n) d = n).
  { intros n d Hn. cbn. destruct (Z.eqb_spec n 0); [congruence | reflexivity]. }
  assert (Hkept : ∀ n : Z, n ≠ 0 → Js.or_null (Some n) = Some n).
  { intros n Hn. cbn. destruct (Z.eqb_spec n 0); [congruence | reflexivity]. }
  split; [repeat split; apply Hnum; discriminate |].
  split; [repeat split; apply Hnull |].
  split; [intros [-> | ->]; reflexivity |].
  split; [intros n Hn; repeat split; intros ->;
          try (apply Hkeep, Hn); apply Hkept, Hn |].
  split; [intros l; repeat split; intros ->; reflexivity |].
  split; [intros n Hn; repeat split; intros ->; apply Hkept, Hn |].
  split; [intros m ->; reflexivity |].
  split; [repeat split; intros [-> | ->]; reflexivity |].
  split; [repeat split; intros [-> | ->]; reflexivity |].
  repeat split; intros ->; reflexivity.
Qed.

Lemma parseRequirements_zero_free_witness :
  maxCost (parseRequirements (preset 11 95 70 0 None)) = 50000
  ∧ minRating (parseRequirements (preset 11 95 70 0 None)) = 70.
Proof.
  destruct (parseRequirements_zero_free (preset 11 95 70 0 None))
    as (_ & _ & Hbudget & Hkeep & _).
  split.
  - apply Hbudget. left. reflexivity.
  - destruct (Hkeep 70 ltac:(discriminate)) as (_ & _ & Hrating & _).
    apply Hrating. reflexivity.
Defined.

(** ** The presets *)

(** Each of the five presets of [quickSolve] is solved: the result is a
    solution of 11 players without a warning, whose strategy is the three
    fixed tips. *)
Theorem quickSolve_presets_solved (sbcType : string) :
  sbcType ∈ preset_names →
  ∃ solution : Solution,
    quickSolve sbcType = Some (Normal (SolutionResult solution))
    ∧ length (squad solution) = 11%nat
    ∧ warnings solution = []
    ∧ strategy solution = fixed_tips.
Proof.
  unfold preset_names. rewrite !elem_of_cons.
  intros [-> | [-> | [-> | [-> | [-> | Hnone]]]]];
    [| | | | | inversion Hnone];
    eexists; (split; [vm_compute; reflexivity |]);
    repeat split.
Qed.

Lemma quickSolve_presets_solved_witness :
  ∃ solution : Solution,
    quickSolve "daily_silver" = Some (Normal (SolutionResult solution))
    ∧ length (squad solution) = 11%nat
    ∧ warnings solution = []
    ∧ strategy solution = fixed_tips.
Proof.
  apply quickSolve_presets_solved. unfold preset_names.
  rewrite !elem_of_cons. right. left. reflexivity.
Defined.

(** ** The chosen rarity against the rarity table *)

(** Without a rarity constraint the choice is gold from 85 on, silver
    from 75 to 84 and bronze below 75, and the rating range that the table
    of the constructor gives for the chosen rarity contains the minimum
    rating only when that rating lies in 45..64 or in 85..99: from 65 to
    74 the choice is bronze (45..64 in the table) and from 75 to 84 it is
    silver (65..74 in the table). *)
Theorem selectOptimalRarity_against_table (parsedReqs : ParsedReqs) :
  rarities (constraints parsedReqs) = [] →
  let name := selectOptimalRarity parsedReqs in
  let chosen := rarityValues playerDatabase !!! name in
  (name = "gold" ↔ 85 <= minRating parsedReqs)
  ∧ (name = "silver" ↔ 75 <= minRating parsedReqs < 85)
  ∧ (name = "bronze" ↔ minRating parsedReqs < 75)
  ∧ (name = "gold" → rarity_min chosen = 75 ∧ rarity_max chosen = 99)
  ∧ (name = "silver" → rarity_min chosen = 65 ∧ rarity_max chosen = 74)
  ∧ (name = "bronze" → rarity_min chosen = 45 ∧ rarity_max chosen = 64)
  ∧ (rarity_min chosen <= minRating parsedReqs <= rarity_max chosen
     ↔ 45 <= minRating parsedReqs <= 64 ∨ 85 <= minRating parsedReqs <= 99).
Proof.
  intros Hnone name chosen. subst chosen name. unfold selectOptimalRarity.
  rewrite Hnone.
  destruct (Z.leb_spec 85 (minRating parsedReqs)) as [Hgold | Hgold];
    [| destruct (Z.leb_spec 75 (minRating parsedReqs)) as [Hsilver | Hsilver]].
  - change (rarityValues playerDatabase !!! "gold")
      with {| rarity_min := 75; rarity_max := 99; rarity_cost := 800 |}.
    cbn [rarity_min rarity_max].
    repeat split; try discriminate; lia.
  - change (rarityValues playerDatabase !!! "silver")
      with {| rarity_min := 65; rarity_max := 74; rarity_cost := 400 |}.
    cbn [rarity_min rarity_max].
    repeat split; try discriminate; lia.
  - change (rarityValues playerDatabase !!! "bronze")
      with {| rarity_min := 45; rarity_max := 64; rarity_cost := 150 |}.
    cbn [rarity_min rarity_max].
    repeat split; try discriminate; lia.
Qed.

Lemma selectOptimalRarity_against_table_witness :
  let parsedReqs := parseRequirements (minimal_object 11 95) in
  let name := selectOptimalRarity parsedReqs in
  let chosen := rarityValues playerDatabase !!! name in
  name = "silver" ∧ rarity_max chosen = 74.
Proof.
  intros parsedReqs name chosen.
  destruct (selectOptimalRarity_against_table parsedReqs eq_refl)
    as (_ & Hsilver & _ & _ & Htable & _).
  assert (Hname : name = "silver")
    by (apply Hsilver; vm_compute; split; [discriminate | reflexivity]).
  split; [exact Hname | apply Htable, Hname].
Defined.

Lemma generateSolution_costs_witness :
  let parsedReqs := parseRequirements (minimal_object 1 95) in
  ∃ (solution : Solution) (p : Player),
    generateSolution parsedReqs = Some solution
    ∧ squad solution !! 0%nat = Some p
    ∧ cost p = estimatePlayerCost p.
Proof.
  intros parsedReqs.
  destruct (generateSolution_costs parsedReqs)
    as (solution & Hgen & _ & Hown & _); [vm_compute; reflexivity |].
  destruct (generateSolution_closed parsedReqs)
    as (solution' & Hgen' & Hsquad & _).
  rewrite Hgen in Hgen'. injection Hgen' as <-.
  exists solution, (set_chemistry (slot_player parsedReqs 0) 10).
  split; [exact Hgen |].
  split; [rewrite Hsquad; reflexivity |].
  apply Hown. rewrite Hsquad. cbn. left.
Defined.

Lemma solve_builds_iff_valid_witness :
  ∃ solution : Solution,
    solveSBCRequirements (JsObject (minimal_object 11 95))
    = Some (Normal (SolutionResult solution)).
Proof.
  apply (proj2 (solve_builds_iff_valid (JsObject (minimal_object 11 95)))).
  exists (minimal_object 11 95). repeat split; eauto.
Defined.
